(** * LightSnowFX: the particle state machine of [dist/LightSnow-Fx.js]

    A shallow embedding of [createInstance] and of the functions it closes
    over ([makeStream], [drawGlow], [drawSegment], [drawStream], [loop],
    [pause], [resume], [destroy]), with the helpers [clamp], [rand] and
    [roundRectPath].

    Numbers.  JavaScript numbers are IEEE doubles; they are idealised here as
    real numbers ([R]), so [Math.sin] is [sin], [Math.floor] is [Zfloor],
    [Math.min]/[Math.max] are [Rmin]/[Rmax], and rounding, NaN and the
    infinities are outside the model.  The two counters of the configuration
    ([streams], [trailLeds]) are integers ([Z]).

    Effects.  The code draws on a canvas, calls [Math.random] and asks the
    host for animation frames.  These are threaded through a state monad
    over a [World]: the canvas is the list of shapes filled so far, the
    random source is a sequence [random : nat -> R] read at a cursor, and the
    host's frame queue is the list of pending handles. *)

From Stdlib Require Import Reals Lra Lia ZArith List Bool String.
Import ListNotations.

Local Open Scope R_scope.

(** ** Comparisons on numbers as booleans *)

Definition Rltb (a b : R) : bool := if Rlt_dec a b then true else false.
Definition Rleb (a b : R) : bool := if Rle_dec a b then true else false.
Definition Reqb (a b : R) : bool := if Req_dec_T a b then true else false.

(** ** DEFAULTS and the merged options object *)

Record Options := {
  (* density & motion *)
  streams : Z;
  speedMin : R;
  speedMax : R;
  windMin : R;
  windMax : R;
  (* streak geometry *)
  segW : R;
  segHead : R;
  segBody : R;
  spacing : option R;          (* null => segBody *)
  (* trail *)
  trailLeds : Z;
  headBoost : R;
  twinkle : R;
  (* melt / impact *)
  meltZone : R;
  flashTime : R;
  meltTime : R;
  spawnGapMin : R;
  spawnGapMax : R;
  (* rendering *)
  retina : bool;
  maxDPR : R;
  glow : bool;
  flashDotRadius : R
}.

Definition DEFAULTS : Options := {|
  streams := 34;
  speedMin := 260;
  speedMax := 560;
  windMin := -25;
  windMax := 25;
  segW := 36 / 10;
  segHead := 20;
  segBody := 16;
  spacing := None;
  trailLeds := 14;
  headBoost := 130 / 100;
  twinkle := 18 / 100;
  meltZone := 48;
  flashTime := 14 / 100;
  meltTime := 55 / 100;
  spawnGapMin := 8 / 100;
  spawnGapMax := 60 / 100;
  retina := true;
  maxDPR := 2;
  glow := true;
  flashDotRadius := 65 / 10
|}.

(** The object a caller passes to [init]: every field may be absent. *)
Record UserOpts := {
  u_streams : option Z;
  u_speedMin : option R;
  u_speedMax : option R;
  u_windMin : option R;
  u_windMax : option R;
  u_segW : option R;
  u_segHead : option R;
  u_segBody : option R;
  u_spacing : option R;
  u_trailLeds : option Z;
  u_headBoost : option R;
  u_twinkle : option R;
  u_meltZone : option R;
  u_flashTime : option R;
  u_meltTime : option R;
  u_spawnGapMin : option R;
  u_spawnGapMax : option R;
  u_retina : option bool;
  u_maxDPR : option R;
  u_glow : option bool;
  u_flashDotRadius : option R
}.

Definition over {A : Type} (d : A) (u : option A) : A :=
  match u with Some v => v | None => d end.

(** [Object.assign({}, DEFAULTS, userOpts)]: a field of the caller wins,
    whatever its value. *)
Definition assign (d : Options) (u : UserOpts) : Options := {|
  streams := over (streams d) (u_streams u);
  speedMin := over (speedMin d) (u_speedMin u);
  speedMax := over (speedMax d) (u_speedMax u);
  windMin := over (windMin d) (u_windMin u);
  windMax := over (windMax d) (u_windMax u);
  segW := over (segW d) (u_segW u);
  segHead := over (segHead d) (u_segHead u);
  segBody := over (segBody d) (u_segBody u);
  spacing := match u_spacing u with Some v => Some v | None => spacing d end;
  trailLeds := over (trailLeds d) (u_trailLeds u);
  headBoost := over (headBoost d) (u_headBoost u);
  twinkle := over (twinkle d) (u_twinkle u);
  meltZone := over (meltZone d) (u_meltZone u);
  flashTime := over (flashTime d) (u_flashTime u);
  meltTime := over (meltTime d) (u_meltTime u);
  spawnGapMin := over (spawnGapMin d) (u_spawnGapMin u);
  spawnGapMax := over (spawnGapMax d) (u_spawnGapMax u);
  retina := over (retina d) (u_retina u);
  maxDPR := over (maxDPR d) (u_maxDPR u);
  glow := over (glow d) (u_glow u);
  flashDotRadius := over (flashDotRadius d) (u_flashDotRadius u)
|}.

(** ** Math helpers *)

(** [function clamp(v, a, b) { return Math.max(a, Math.min(b, v)); }] *)
Definition clamp (v a b : R) : R := Rmax a (Rmin b v).

(** [x | 0]: truncate toward zero, then wrap into the signed 32-bit range. *)
Definition Ztrunc (x : R) : Z :=
  if Rltb x 0 then (- Zfloor (- x))%Z else Zfloor x.

Definition toInt32 (x : R) : Z :=
  ((Ztrunc x + 2 ^ 31) mod 2 ^ 32 - 2 ^ 31)%Z.

(** ** Particles *)

Inductive Phase := st_fall | st_flash | st_melt | st_wait.

(** The order in which [drawStream] moves a particle through its states. *)
Definition next_phase (p : Phase) : Phase :=
  match p with
  | st_fall => st_flash
  | st_flash => st_melt
  | st_melt => st_wait
  | st_wait => st_fall
  end.

(** The object built by [makeStream]. *)
Record Stream := {
  s_x : R;
  s_y : R;
  s_vy : R;
  s_vx : R;
  s_phase : R;
  s_state : Phase;
  s_t : R;
  s_wait : R
}.

(** ** The canvas: what has been filled, in order *)

Inductive PaintOp :=
| ClearRect (x y w h : R)
  (* a radial gradient from white at alpha [a0] to transparent, filled on the
     disc of radius [r] around [(x, y)] *)
| FillGlow (x y r a0 : R)
  (* [roundRectPath(ctx, x, y, w, h, r)] filled with white at alpha [a] *)
| FillCapsule (x y w h r a : R)
  (* [ctx.arc(x, y, r, 0, 2*PI)] filled with white at alpha [a] *)
| FillCircle (x y r a : R).

(** ** The world and its monad *)

Record World := {
  seed : nat;                 (* how many times Math.random was called *)
  frames : list nat;          (* animation-frame requests not yet served *)
  next_frame : nat;           (* the handle the next request will get *)
  canvas : list PaintOp
}.

Definition M (A : Type) : Type := World -> A * World.

Definition ret {A : Type} (a : A) : M A := fun w => (a, w).

Definition bind {A B : Type} (m : M A) (k : A -> M B) : M B :=
  fun w => let (a, w') := m w in k a w'.

Notation "x <- m ;; k" := (bind m (fun x => k))
  (at level 61, m at next level, right associativity).
Notation "m ;; k" := (bind m (fun _ => k))
  (at level 61, right associativity).

(** What a computation returns, and the world it leaves. *)
Definition result {A : Type} (m : M A) (w : World) : A := fst (m w).
Definition after {A : Type} (m : M A) (w : World) : World := snd (m w).

Definition fill (p : PaintOp) : M unit := fun w =>
  (tt, {| seed := seed w; frames := frames w;
          next_frame := next_frame w; canvas := canvas w ++ [p] |}).

(** [requestAnimationFrame(loop)]: a fresh handle, queued. *)
Definition requestAnimationFrame : M nat := fun w =>
  (next_frame w,
   {| seed := seed w; frames := frames w ++ [next_frame w];
      next_frame := S (next_frame w); canvas := canvas w |}).

(** [cancelAnimationFrame(id)]: the request, if still queued, is dropped. *)
Definition cancelAnimationFrame (id : nat) : M unit := fun w =>
  (tt, {| seed := seed w; frames := remove Nat.eq_dec id (frames w);
          next_frame := next_frame w; canvas := canvas w |}).

(** [for (let i = 0; i < n; i++) body(i)] *)
Fixpoint for_from (i : nat) (n : nat) (body : nat -> M unit) : M unit :=
  match n with
  | O => ret tt
  | S n' => body i ;; for_from (S i) n' body
  end.

Definition for_upto (n : Z) (body : nat -> M unit) : M unit :=
  for_from 0 (Z.to_nat n) body.

(** [xs.map(f)] for an effectful [f], left to right. *)
Fixpoint mapM {A B : Type} (f : A -> M B) (xs : list A) : M (list B) :=
  match xs with
  | [] => ret []
  | a :: xs' => b <- f a ;; bs <- mapM f xs' ;; ret (b :: bs)
  end.

(** [Array.from({ length: n }, () => f())] *)
Fixpoint replicateM {A : Type} (n : nat) (f : M A) : M (list A) :=
  match n with
  | O => ret []
  | S n' => a <- f ;; rest <- replicateM n' f ;; ret (a :: rest)
  end.

(** ** The closure of [createInstance] *)

(** [parent.getBoundingClientRect()] *)
Record Rect := { width : R; height : R }.

(** The variables [createInstance] declares with [let] and its methods
    share, with what the host knows of the instance: whether the canvas is
    still a child of its parent and whether [onResize] is still registered. *)
Record Instance := {
  i_opt : Options;
  i_W : R;
  i_H : R;
  i_DPR : R;
  i_raf : nat;
  i_running : bool;
  i_streams : list Stream;
  i_last : R;
  i_attached : bool;
  i_listening : bool
}.

(** What [createInstance] can throw: its own [throw new Error(msg)], and the
    [RangeError] of [Array.from] for a length the engine refuses. *)
Inductive Exn :=
| Error (msg : string)
| RangeError.

Definition target_not_found : Exn :=
  Error "LightSnowFX: target not found".
Definition context_not_available : Exn :=
  Error "LightSnowFX: canvas 2d context not available".

Section Closure.

(** The values [Math.random()] returns, in call order. *)
Variable random : nat -> R.

Definition Math_random : M R := fun w =>
  (random (seed w),
   {| seed := S (seed w); frames := frames w;
      next_frame := next_frame w; canvas := canvas w |}).

(** [function rand(a, b) { return a + Math.random() * (b - a); }] *)
Definition rand (a b : R) : M R :=
  u <- Math_random ;; ret (a + u * (b - a)).

(** [const spacing = (opt.spacing == null) ? SEG.hBody : opt.spacing;] *)
Definition spacingOf (opt : Options) : R :=
  match spacing opt with None => segBody opt | Some v => v end.

(** [resize()]: the new [W], [H] and [DPR]. *)
Definition resize (opt : Options) (r : Rect) (devicePixelRatio : R)
  : R * R * R :=
  let W := Rmax 1 (IZR (Zfloor (width r))) in
  let H := Rmax 1 (IZR (Zfloor (height r))) in
  let DPR :=
    if retina opt
    then clamp (if Reqb devicePixelRatio 0 then 1 else devicePixelRatio)
               1 (maxDPR opt)
    else 1 in
  (W, H, DPR).

Definition makeStream (opt : Options) (W H : R) (first : bool) : M Stream :=
  x <- rand 0 W ;;
  y <- (if first then rand (- H) H else rand (- H * (7 / 10)) (-60)) ;;
  vy <- rand (speedMin opt) (speedMax opt) ;;
  vx <- rand (windMin opt) (windMax opt) ;;
  phase <- rand 0 (PI * 2) ;;
  ret {| s_x := x; s_y := y; s_vy := vy; s_vx := vx; s_phase := phase;
         s_state := st_fall; s_t := 0; s_wait := 0 |}.

Definition drawGlow (opt : Options) (x y a : R) (isHead : bool) : M unit :=
  if negb (glow opt) || Rleb a (12 / 100) then ret tt
  else
    let R := if isHead then 26 else 16 in
    fill (FillGlow x y R (a * (18 / 100))).

Definition drawSegment (opt : Options) (x y a : R) (isHead : bool) : M unit :=
  let w := segW opt in
  let h := if isHead then segHead opt else segBody opt in
  drawGlow opt x y a isHead ;;
  let rr := Rmax w h * (5 / 10) in
  fill (FillCapsule (x - w / 2) (y - h / 2) w h rr a).

(** Lines 184-185: [ly] for the LED of index [i]. *)
Definition ledY (sp : R) (headIndex : Z) (i : nat) : R :=
  let idx := (headIndex - Z.of_nat i)%Z in
  IZR idx * sp.

(** Lines 188-197: the alpha of the LED of index [i] at height [ly].  The two
    quotients are quotients of real numbers: they are those of the code for
    [trailLeds <> 0], which holds whenever the loop runs, and for
    [meltZone <> 0]; at [meltZone = 0] the code divides by zero and gets an
    infinity, which no real number stands for, so the properties below that
    reach the second quotient assume [meltZone <> 0]. *)
Definition ledAlpha (opt : Options) (H tw ly : R) (i : nat) : R :=
  let a := 1 - INR i / IZR (trailLeds opt) in
  let a := if Nat.eqb i 0 then Rmin 1 (a * headBoost opt) else a in
  let meltStart := H - meltZone opt in
  let a :=
    if Rltb meltStart ly
    then
      let t := Rmin 1 ((ly - meltStart) / meltZone opt) in
      a * (1 - t)
    else a in
  a * (92 / 100 * tw).

(** The body of the [for] loop of the fall state. *)
Definition drawLed (opt : Options) (H x tw : R) (headIndex : Z) (i : nat)
  : M unit :=
  let ly := ledY (spacingOf opt) headIndex i in
  if Rltb ly (-40) || Rltb (H + 40) ly then ret tt
  else
    let a := ledAlpha opt H tw ly i in
    if Rleb a 0 then ret tt
    else drawSegment opt x ly a (Nat.eqb i 0).

Definition drawStream (opt : Options) (W H : R) (s : Stream) (dt : R)
  : M Stream :=
  let phase := s_phase s + 115 / 100 * dt in
  let tw := 1 + sin phase * twinkle opt in
  match s_state s with
  | st_fall =>
      let y := s_y s + s_vy s * dt in
      let x := s_x s + s_vx s * dt in
      let x := if Rltb x (-50) then W + 50 else x in
      let x := if Rltb (W + 50) x then -50 else x in
      let headIndex := Zfloor (y / spacingOf opt) in
      for_upto (trailLeds opt) (drawLed opt H x tw headIndex) ;;
      if Rltb (H - 2) y
      then ret {| s_x := x; s_y := y; s_vy := s_vy s; s_vx := s_vx s;
                  s_phase := phase; s_state := st_flash; s_t := 0;
                  s_wait := s_wait s |}
      else ret {| s_x := x; s_y := y; s_vy := s_vy s; s_vx := s_vx s;
                  s_phase := phase; s_state := st_fall; s_t := s_t s;
                  s_wait := s_wait s |}
  | st_flash =>
      let t := s_t s + dt in
      let yb := H - 10 in
      let a := clamp (1 - t / flashTime opt) 0 1 in
      (* halo impact *)
      fill (FillCircle (s_x s) yb 42 (30 / 100 * a)) ;;
      (* round dot *)
      fill (FillCircle (s_x s) yb (flashDotRadius opt) (98 / 100 * a)) ;;
      (* melt drop *)
      fill (FillCircle (s_x s) (yb + 14) 10 (22 / 100 * a)) ;;
      if Rleb (flashTime opt) t
      then ret {| s_x := s_x s; s_y := s_y s; s_vy := s_vy s; s_vx := s_vx s;
                  s_phase := phase; s_state := st_melt; s_t := 0;
                  s_wait := s_wait s |}
      else ret {| s_x := s_x s; s_y := s_y s; s_vy := s_vy s; s_vx := s_vx s;
                  s_phase := phase; s_state := st_flash; s_t := t;
                  s_wait := s_wait s |}
  | st_melt =>
      let t := s_t s + dt in
      let yb := H - 10 in
      let p := clamp (t / meltTime opt) 0 1 in
      let a := 1 - p in
      fill (FillCircle (s_x s) (yb + 14) (10 * (1 + p * 1)) (18 / 100 * a)) ;;
      if Rleb 1 p
      then
        wait <- rand (spawnGapMin opt) (spawnGapMax opt) ;;
        ret {| s_x := s_x s; s_y := s_y s; s_vy := s_vy s; s_vx := s_vx s;
               s_phase := phase; s_state := st_wait; s_t := 0;
               s_wait := wait |}
      else ret {| s_x := s_x s; s_y := s_y s; s_vy := s_vy s; s_vx := s_vx s;
                  s_phase := phase; s_state := st_melt; s_t := t;
                  s_wait := s_wait s |}
  | st_wait =>
      let wait := s_wait s - dt in
      if Rleb wait 0
      then
        ns <- makeStream opt W H false ;;
        ret {| s_x := s_x ns; s_y := s_y ns; s_vy := s_vy ns; s_vx := s_vx ns;
               s_phase := s_phase ns; s_state := st_fall; s_t := 0;
               s_wait := wait |}
      else ret {| s_x := s_x s; s_y := s_y s; s_vy := s_vy s; s_vx := s_vx s;
                  s_phase := phase; s_state := st_wait; s_t := s_t s;
                  s_wait := wait |}
  end.

(** [onResize], the listener of the window's resize event. *)
Definition onResize (r : Rect) (devicePixelRatio : R) (it : Instance)
  : Instance :=
  let '(W, H, DPR) := resize (i_opt it) r devicePixelRatio in
  {| i_opt := i_opt it; i_W := W; i_H := H; i_DPR := DPR;
     i_raf := i_raf it; i_running := i_running it;
     i_streams := i_streams it; i_last := i_last it;
     i_attached := i_attached it; i_listening := i_listening it |}.

(** [Math.min(40, now - last) / 1000] *)
Definition frame_dt (now last : R) : R := Rmin 40 (now - last) / 1000.

(** [loop(now)], called by the host with the current bounding rectangle of
    the parent and the current device pixel ratio. *)
Definition loop (r : Rect) (devicePixelRatio : R) (now : R) (it : Instance)
  : M Instance :=
  if negb (i_running it) then ret it
  else
    let dt := frame_dt now (i_last it) in
    (* auto-resize if parent resized without window resize *)
    let '(W, H, DPR) :=
      if negb (Reqb (IZR (toInt32 (width r))) (i_W it))
         || negb (Reqb (IZR (toInt32 (height r))) (i_H it))
      then resize (i_opt it) r devicePixelRatio
      else (i_W it, i_H it, i_DPR it) in
    fill (ClearRect 0 0 W H) ;;
    ss <- mapM (fun s => drawStream (i_opt it) W H s dt) (i_streams it) ;;
    raf <- requestAnimationFrame ;;
    ret {| i_opt := i_opt it; i_W := W; i_H := H; i_DPR := DPR;
           i_raf := raf; i_running := i_running it; i_streams := ss;
           i_last := now; i_attached := i_attached it;
           i_listening := i_listening it |}.

(** The host serves the request [i_raf it]: it leaves the queue and [loop]
    runs. *)
Definition serveFrame (r : Rect) (devicePixelRatio : R) (now : R)
  (it : Instance) : M Instance :=
  cancelAnimationFrame (i_raf it) ;;
  loop r devicePixelRatio now it.

(** [createInstance(userOpts)].  [target] is what [resolveTarget(opt.target)]
    finds (its bounding rectangle), [ctxOk] whether [getContext('2d')] gives
    a context, [now] the value of [performance.now()].  The calls to the host
    ([querySelector], [getComputedStyle], [getContext],
    [getBoundingClientRect]) are taken to return: a selector that does not
    parse or a target that is not an element, which make them throw, are not
    among the inputs.  [Array.from({ length: n }, ...)] makes an array of
    [max(0, n)] elements, and throws before its first element when
    [n >= 2^32]. *)
Definition createInstance (target : option Rect) (ctxOk : bool)
  (devicePixelRatio : R) (now : R) (userOpts : UserOpts)
  : M (Exn + Instance) :=
  let opt := assign DEFAULTS userOpts in
  match target with
  | None => ret (inl target_not_found)
  | Some r =>
      if negb ctxOk then ret (inl context_not_available)
      else
        let '(W, H, DPR) := resize opt r devicePixelRatio in
        if (2 ^ 32 <=? streams opt)%Z then ret (inl RangeError)
        else
          ss <- replicateM (Z.to_nat (streams opt))
                  (makeStream opt W H true) ;;
          raf <- requestAnimationFrame ;;
          ret (inr {| i_opt := opt; i_W := W; i_H := H; i_DPR := DPR;
                      i_raf := raf; i_running := true; i_streams := ss;
                      i_last := now; i_attached := true;
                      i_listening := true |})
  end.

(** [pause() { if (!running) return; running = false;
               cancelAnimationFrame(raf); }] *)
Definition pause (it : Instance) : M Instance :=
  if negb (i_running it) then ret it
  else
    cancelAnimationFrame (i_raf it) ;;
    ret {| i_opt := i_opt it; i_W := i_W it; i_H := i_H it;
           i_DPR := i_DPR it; i_raf := i_raf it; i_running := false;
           i_streams := i_streams it; i_last := i_last it;
           i_attached := i_attached it; i_listening := i_listening it |}.

(** [resume() { if (running) return; running = true;
                last = performance.now();
                raf = requestAnimationFrame(loop); }] *)
Definition resume (now : R) (it : Instance) : M Instance :=
  if i_running it then ret it
  else
    raf <- requestAnimationFrame ;;
    ret {| i_opt := i_opt it; i_W := i_W it; i_H := i_H it;
           i_DPR := i_DPR it; i_raf := raf; i_running := true;
           i_streams := i_streams it; i_last := now;
           i_attached := i_attached it; i_listening := i_listening it |}.

Definition destroy (it : Instance) : M Instance :=
  cancelAnimationFrame (i_raf it) ;;
  ret {| i_opt := i_opt it; i_W := i_W it; i_H := i_H it;
         i_DPR := i_DPR it; i_raf := i_raf it; i_running := false;
         i_streams := []; i_last := i_last it;
         i_attached := false; i_listening := false |}.

End Closure.

(** ** What the trail of a falling particle adds to the canvas

    The shapes [drawGlow], [drawSegment] and [drawLed] fill, as lists. *)

Definition glowOps (opt : Options) (x y a : R) (isHead : bool)
  : list PaintOp :=
  if negb (glow opt) || Rleb a (12 / 100) then []
  else [FillGlow x y (if isHead then 26 else 16) (a * (18 / 100))].

Definition segmentOps (opt : Options) (x y a : R) (isHead : bool)
  : list PaintOp :=
  let w := segW opt in
  let h := if isHead then segHead opt else segBody opt in
  glowOps opt x y a isHead ++
  [FillCapsule (x - w / 2) (y - h / 2) w h (Rmax w h * (5 / 10)) a].

Definition ledOps (opt : Options) (H x tw : R) (headIndex : Z) (i : nat)
  : list PaintOp :=
  let ly := ledY (spacingOf opt) headIndex i in
  if Rltb ly (-40) || Rltb (H + 40) ly then []
  else
    let a := ledAlpha opt H tw ly i in
    if Rleb a 0 then [] else segmentOps opt x ly a (Nat.eqb i 0).

(** [m] only paints, and what it paints is [ops]. *)
Definition paints (m : M unit) (ops : list PaintOp) : Prop :=
  forall w,
    m w = (tt, {| seed := seed w; frames := frames w;
                  next_frame := next_frame w; canvas := canvas w ++ ops |}).

(** ** Sample inputs

    A random source that always answers 0.5, an empty world, and one
    particle for each situation examined below.  The canvas is 100 wide and
    200 high and the options are [DEFAULTS] unless said otherwise. *)

Definition always_half : nat -> R := fun _ => 1 / 2.

Definition world0 : World :=
  {| seed := 0; frames := []; next_frame := 0; canvas := [] |}.

Definition no_opts : UserOpts :=
  {| u_streams := None; u_speedMin := None; u_speedMax := None;
     u_windMin := None; u_windMax := None; u_segW := None;
     u_segHead := None; u_segBody := None; u_spacing := None;
     u_trailLeds := None; u_headBoost := None; u_twinkle := None;
     u_meltZone := None; u_flashTime := None; u_meltTime := None;
     u_spawnGapMin := None; u_spawnGapMax := None; u_retina := None;
     u_maxDPR := None; u_glow := None; u_flashDotRadius := None |}.

(** [{ streams: -1, speedMin: 560, speedMax: 260, flashTime: 0,
       meltTime: -1, spawnGapMin: 2, spawnGapMax: 1 }] *)
Definition bad_opts : UserOpts :=
  {| u_streams := Some (-1)%Z; u_speedMin := Some 560; u_speedMax := Some 260;
     u_windMin := None; u_windMax := None; u_segW := None;
     u_segHead := None; u_segBody := None; u_spacing := None;
     u_trailLeds := None; u_headBoost := None; u_twinkle := None;
     u_meltZone := None; u_flashTime := Some 0; u_meltTime := Some (-1);
     u_spawnGapMin := Some 2; u_spawnGapMax := Some 1; u_retina := None;
     u_maxDPR := None; u_glow := None; u_flashDotRadius := None |}.

(** Falling, its head at [y = 100] after a step of 16 ms, the twinkle at
    its brightest ([phase = PI / 2] after the step). *)
Definition falling_bright : Stream :=
  {| s_x := 50; s_y := 96; s_vy := 250; s_vx := 0;
     s_phase := PI / 2 - 115 / 100 * (16 / 1000);
     s_state := st_fall; s_t := 0; s_wait := 0 |}.

(** Falling, its head at [y = 210], below the canvas, after a step of
    40 ms. *)
Definition falling_low : Stream :=
  {| s_x := 50; s_y := 190; s_vy := 500; s_vx := 0; s_phase := 0;
     s_state := st_fall; s_t := 0; s_wait := 0 |}.

(** Flashing for 0.10 s: a step of 40 ms brings it to [flashTime]. *)
Definition flashing_edge : Stream :=
  {| s_x := 50; s_y := 210; s_vy := 500; s_vx := 0; s_phase := 0;
     s_state := st_flash; s_t := 10 / 100; s_wait := 0 |}.

(** Melting since 0 s. *)
Definition melting_start : Stream :=
  {| s_x := 50; s_y := 210; s_vy := 500; s_vx := 0; s_phase := 0;
     s_state := st_melt; s_t := 0; s_wait := 0 |}.

(** Melting for 0.52 s: a step of 40 ms ends the melt. *)
Definition melting_end : Stream :=
  {| s_x := 50; s_y := 210; s_vy := 500; s_vx := 0; s_phase := 0;
     s_state := st_melt; s_t := 52 / 100; s_wait := 0 |}.

(** Waiting, 10 ms left, at [x = 0]. *)
Definition waiting_done : Stream :=
  {| s_x := 0; s_y := 210; s_vy := 500; s_vx := 0; s_phase := 0;
     s_state := st_wait; s_t := 0; s_wait := 1 / 100 |}.

(** A paused instance with one falling particle, and the same running. *)
Definition paused_instance : Instance :=
  {| i_opt := DEFAULTS; i_W := 100; i_H := 200; i_DPR := 1; i_raf := 0;
     i_running := false; i_streams := [falling_low]; i_last := 0;
     i_attached := true; i_listening := true |}.

Definition running_instance : Instance :=
  {| i_opt := DEFAULTS; i_W := 100; i_H := 200; i_DPR := 1; i_raf := 0;
     i_running := true; i_streams := [falling_low]; i_last := 0;
     i_attached := true; i_listening := true |}.

(** ** The outline of a capsule

    [roundRectPath(ctx, x, y, w, h, r)] as the list of the path commands it
    sends to the context; [FillCapsule x y w h r a] above stands for this
    path filled at alpha [a]. *)

Inductive PathCmd :=
| beginPath
| moveTo (x y : R)
| lineTo (x y : R)
| quadraticCurveTo (cpx cpy x y : R)
| closePath.

Definition roundRectPath (x y w h r : R) : list PathCmd :=
  let rr := Rmin (Rmin r (w / 2)) (h / 2) in
  [ beginPath;
    moveTo (x + rr) y;
    lineTo (x + w - rr) y;
    quadraticCurveTo (x + w) y (x + w) (y + rr);
    lineTo (x + w) (y + h - rr);
    quadraticCurveTo (x + w) (y + h) (x + w - rr) (y + h);
    lineTo (x + rr) (y + h);
    quadraticCurveTo x (y + h) x (y + h - rr);
    lineTo x (y + rr);
    quadraticCurveTo x y (x + rr) y;
    closePath ].

(** The points a path command names: end points and control points. *)
Definition cmdPoints (c : PathCmd) : list (R * R) :=
  match c with
  | beginPath | closePath => []
  | moveTo x y | lineTo x y => [(x, y)]
  | quadraticCurveTo cpx cpy x y => [(cpx, cpy); (x, y)]
  end.

(** ** Successive frames of one particle

    [n] calls of [drawStream] on the same particle, as [n] frames of a
    canvas of constant size and a constant [dt] make them. *)
Fixpoint steps (random : nat -> R) (opt : Options) (W H dt : R) (n : nat)
  (s : Stream) : M Stream :=
  match n with
  | O => ret s
  | S n' =>
      s' <- drawStream random opt W H s dt ;;
      steps random opt W H dt n' s'
  end.

(** How many values of [Math.random] a step from state [a] to state [b]
    reads. *)
Definition draws (a b : Phase) : nat :=
  match a, b with
  | st_melt, st_wait => 1
  | st_wait, st_fall => 5
  | _, _ => 0
  end.

(** * Properties *)

(** ** Booleans of comparisons *)

Lemma Rltb_true (a b : R) : Rltb a b = true <-> a < b.
Proof. unfold Rltb; destruct (Rlt_dec a b); split; intros; try easy. Qed.

Lemma Rltb_false (a b : R) : Rltb a b = false <-> b <= a.
Proof.
  unfold Rltb; destruct (Rlt_dec a b); split; intros; try easy; lra.
Qed.

Lemma Rleb_true (a b : R) : Rleb a b = true <-> a <= b.
Proof. unfold Rleb; destruct (Rle_dec a b); split; intros; try easy. Qed.

Lemma Rleb_false (a b : R) : Rleb a b = false <-> b < a.
Proof.
  unfold Rleb; destruct (Rle_dec a b); split; intros; try easy; lra.
Qed.

(** Split on every comparison of the goal, innermost first, keeping the
    inequality. *)
Ltac no_test t :=
  lazymatch t with
  | context [Rltb _ _] => fail
  | context [Rleb _ _] => fail
  | _ => idtac
  end.

Ltac cases_R :=
  repeat match goal with
  | |- context [Rltb ?a ?b] =>
      no_test a; no_test b;
      let E := fresh "E" in
      destruct (Rltb a b) eqn:E;
      [apply Rltb_true in E | apply Rltb_false in E]
  | |- context [Rleb ?a ?b] =>
      no_test a; no_test b;
      let E := fresh "E" in
      destruct (Rleb a b) eqn:E;
      [apply Rleb_true in E | apply Rleb_false in E]
  end.

(** Decide the comparisons of the goal that [lra] can decide. *)
Ltac eval_R :=
  repeat match goal with
  | |- context [Rltb ?a ?b] =>
      first [ replace (Rltb a b) with true
                by (symmetry; apply Rltb_true; lra)
            | replace (Rltb a b) with false
                by (symmetry; apply Rltb_false; lra) ]
  | |- context [Rleb ?a ?b] =>
      first [ replace (Rleb a b) with true
                by (symmetry; apply Rleb_true; lra)
            | replace (Rleb a b) with false
                by (symmetry; apply Rleb_false; lra) ]
  end.

Lemma clamp_ge_hi (v a b : R) : a < b -> (b <= clamp v a b <-> b <= v).
Proof.
  intros Hab; unfold clamp, Rmax, Rmin.
  destruct (Rle_dec b v); destruct (Rle_dec a _); split; lra.
Qed.

Lemma FillCircle_eq (x y r a x' y' r' a' : R) :
  x = x' -> y = y' -> r = r' -> a = a' ->
  FillCircle x y r a = FillCircle x' y' r' a'.
Proof. now intros -> -> -> ->. Qed.

Lemma FillCapsule_eq (x y w h r a x' y' w' h' r' a' : R) :
  x = x' -> y = y' -> w = w' -> h = h' -> r = r' -> a = a' ->
  FillCapsule x y w h r a = FillCapsule x' y' w' h' r' a'.
Proof. now intros -> -> -> -> -> ->. Qed.

(** ** What a step returns, whatever it paints *)

Lemma result_bind {A B : Type} (m : M A) (k : A -> M B) (w : World) :
  result (bind m k) w = result (k (result m w)) (after m w).
Proof. unfold result, after, bind; destruct (m w); reflexivity. Qed.

Lemma after_bind {A B : Type} (m : M A) (k : A -> M B) (w : World) :
  after (bind m k) w = after (k (result m w)) (after m w).
Proof. unfold result, after, bind; destruct (m w); reflexivity. Qed.

Lemma result_ret {A : Type} (a : A) (w : World) : result (ret a) w = a.
Proof. reflexivity. Qed.

Lemma after_ret {A : Type} (a : A) (w : World) : after (ret a) w = w.
Proof. reflexivity. Qed.

Lemma result_if {A : Type} (b : bool) (m1 m2 : M A) (w : World) :
  result (if b then m1 else m2) w = if b then result m1 w else result m2 w.
Proof. destruct b; reflexivity. Qed.

Lemma after_if {A : Type} (b : bool) (m1 m2 : M A) (w : World) :
  after (if b then m1 else m2) w = if b then after m1 w else after m2 w.
Proof. destruct b; reflexivity. Qed.

Ltac run :=
  repeat first
    [ rewrite result_bind | rewrite after_bind
    | rewrite result_ret | rewrite after_ret
    | rewrite result_if | rewrite after_if ].

(** ** What the drawing functions paint *)

Lemma paints_ret : paints (ret tt) [].
Proof. intros [sd fr nf cv]; unfold ret; simpl; now rewrite app_nil_r. Qed.

Lemma paints_fill (p : PaintOp) : paints (fill p) [p].
Proof. intros w; reflexivity. Qed.

Lemma paints_bind (m k : M unit) (a b : list PaintOp) :
  paints m a -> paints k b -> paints (m ;; k) (a ++ b).
Proof.
  intros Hm Hk w; unfold bind; rewrite Hm, Hk; simpl; now rewrite app_assoc.
Qed.

Lemma drawGlow_paints (opt : Options) (x y a : R) (isHead : bool) :
  paints (drawGlow opt x y a isHead) (glowOps opt x y a isHead).
Proof.
  unfold drawGlow, glowOps; destruct (negb (glow opt) || Rleb a (12 / 100)).
  - apply paints_ret.
  - apply paints_fill.
Qed.

Lemma drawSegment_paints (opt : Options) (x y a : R) (isHead : bool) :
  paints (drawSegment opt x y a isHead) (segmentOps opt x y a isHead).
Proof.
  unfold drawSegment, segmentOps; apply paints_bind.
  - apply drawGlow_paints.
  - apply paints_fill.
Qed.

Lemma drawLed_paints (opt : Options) (H x tw : R) (headIndex : Z) (i : nat) :
  paints (drawLed opt H x tw headIndex i) (ledOps opt H x tw headIndex i).
Proof.
  unfold drawLed, ledOps.
  destruct (Rltb _ (-40) || Rltb (H + 40) _); [apply paints_ret|].
  destruct (Rleb _ 0); [apply paints_ret | apply drawSegment_paints].
Qed.

Lemma for_from_paints (body : nat -> M unit) (ops : nat -> list PaintOp)
  (i n : nat) :
  (forall j, paints (body j) (ops j)) ->
  paints (for_from i n body) (flat_map ops (seq i n)).
Proof.
  intros Hb; revert i; induction n as [|n IH]; intros i; simpl.
  - apply paints_ret.
  - apply paints_bind; [apply Hb | apply IH].
Qed.

Lemma ledOps_In (opt : Options) (H x tw : R) (headIndex : Z) (i : nat)
  (op : PaintOp) :
  In op (ledOps opt H x tw headIndex i) ->
  let ly := ledY (spacingOf opt) headIndex i in
  let a := ledAlpha opt H tw ly i in
  let h := if Nat.eqb i 0 then segHead opt else segBody opt in
  -40 <= ly <= H + 40 /\ 0 < a /\
  (op = FillGlow x ly (if Nat.eqb i 0 then 26 else 16) (a * (18 / 100)) \/
   op = FillCapsule (x - segW opt / 2) (ly - h / 2) (segW opt) h
          (Rmax (segW opt) h * (5 / 10)) a).
Proof.
  intros Hin ly a h; revert Hin; unfold ledOps, segmentOps, glowOps.
  fold ly; fold a; fold h.
  destruct (Rltb ly (-40)) eqn:E1; [intros []|apply Rltb_false in E1].
  destruct (Rltb (H + 40) ly) eqn:E2; [intros []|apply Rltb_false in E2].
  destruct (Rleb a 0) eqn:E3; [intros []|apply Rleb_false in E3].
  simpl orb; intros Hin; split; [lra|split; [lra|]].
  destruct (negb (glow opt) || Rleb a (12 / 100)); simpl in Hin;
    intuition auto.
Qed.

(** The alpha of a LED that is painted, under the sine bound. *)
Lemma ledAlpha_le (opt : Options) (H sn ly : R) (i : nat) :
  (i < Z.to_nat (trailLeds opt))%nat ->
  0 <= headBoost opt -> 0 < meltZone opt -> 0 <= twinkle opt ->
  -1 <= sn <= 1 ->
  0 < ledAlpha opt H (1 + sn * twinkle opt) ly i ->
  ledAlpha opt H (1 + sn * twinkle opt) ly i
    <= 92 / 100 * (1 + twinkle opt).
Proof.
  intros Hi Hhb Hmz Htw Hsn; unfold ledAlpha.
  set (T := IZR (trailLeds opt)).
  assert (HT : INR i < T).
  { unfold T; rewrite INR_IZR_INZ; apply IZR_lt; lia. }
  assert (Hi0 : 0 <= INR i) by apply pos_INR.
  assert (Ha0 : 0 < 1 - INR i / T <= 1).
  { assert (0 <= INR i / T < 1); [|lra].
    split.
    - apply Rmult_le_pos; [lra|]; left; apply Rinv_0_lt_compat; lra.
    - apply (Rmult_lt_reg_r T); [lra|].
      unfold Rdiv; rewrite Rmult_assoc, Rinv_l; lra. }
  set (a0 := 1 - INR i / T) in *.
  set (a1 := if Nat.eqb i 0 then Rmin 1 (a0 * headBoost opt) else a0).
  assert (Ha1 : 0 <= a1 <= 1).
  { unfold a1; destruct (Nat.eqb i 0); [|lra].
    unfold Rmin; destruct (Rle_dec 1 (a0 * headBoost opt)); nra. }
  set (ms := H - meltZone opt).
  set (a2 := if Rltb ms ly
             then a1 * (1 - Rmin 1 ((ly - ms) / meltZone opt)) else a1).
  assert (Ha2 : 0 <= a2 <= 1).
  { unfold a2; destruct (Rltb ms ly) eqn:E; [apply Rltb_true in E|lra].
    assert (0 < (ly - ms) / meltZone opt).
    { apply Rmult_lt_0_compat; [lra | apply Rinv_0_lt_compat; lra]. }
    unfold Rmin; destruct (Rle_dec 1 ((ly - ms) / meltZone opt)); nra. }
  intros Hpos.
  assert (Hsn' : sn * twinkle opt <= twinkle opt) by nra.
  assert (Htwp : 0 < 1 + sn * twinkle opt) by nra.
  nra.
Qed.

Lemma paints_nothing (m : M unit) (w : World) : paints m [] -> m w = (tt, w).
Proof.
  intros Hm; rewrite Hm; destruct w; simpl; now rewrite app_nil_r.
Qed.

Lemma ledY_formula (sp : R) (headIndex : Z) (i : nat) :
  ledY sp headIndex i = IZR headIndex * sp - INR i * sp.
Proof. unfold ledY; rewrite minus_IZR, INR_IZR_INZ; ring. Qed.

Lemma ledOps_capsule (opt : Options) (H x tw : R) (headIndex : Z) (i : nat) :
  let ly := ledY (spacingOf opt) headIndex i in
  let a := ledAlpha opt H tw ly i in
  let h := if Nat.eqb i 0 then segHead opt else segBody opt in
  -40 <= ly <= H + 40 -> 0 < a ->
  In (FillCapsule (x - segW opt / 2) (ly - h / 2) (segW opt) h
        (Rmax (segW opt) h * (5 / 10)) a)
     (ledOps opt H x tw headIndex i).
Proof.
  intros ly a h [Hlo Hhi] Ha; unfold ledOps; fold ly; cbv zeta; fold a.
  apply Rltb_false in Hlo, Hhi; apply Rleb_false in Ha.
  rewrite Hlo, Hhi, Ha; simpl; unfold segmentOps; fold h.
  apply in_or_app; right; left; reflexivity.
Qed.

(** ** The particle state machine *)

Section Properties.

Variable random : nat -> R.

(** C4: a flashing particle whose accumulated time [s.t + dt] has reached
    [flashTime] (equality included) is melting when the step returns, with
    its time back at 0; below [flashTime] it keeps flashing. *)
Theorem flash_to_melt_same_step (opt : Options) (W H : R) (s : Stream)
  (dt : R) (w : World) :
  s_state s = st_flash ->
  let s' := result (drawStream random opt W H s dt) w in
  (flashTime opt <= s_t s + dt -> s_state s' = st_melt /\ s_t s' = 0) /\
  (s_t s + dt < flashTime opt ->
     s_state s' = st_flash /\ s_t s' = s_t s + dt).
Proof.
  intros Hst s'; subst s'; unfold drawStream; rewrite Hst; run.
  split; intros Ht; eval_R; run; simpl; auto.
Qed.

(** C7: whenever a step changes the state of a particle, the new state is
    the next one of the cycle fall, flash, melt, wait, fall, and the step
    leaves [s.t] at 0. *)
Theorem transition_resets_t (opt : Options) (W H : R) (s : Stream)
  (dt : R) (w : World) :
  let s' := result (drawStream random opt W H s dt) w in
  s_state s' <> s_state s ->
  s_state s' = next_phase (s_state s) /\ s_t s' = 0.
Proof.
  intros s'; subst s'; unfold drawStream.
  destruct (s_state s); run; cases_R; run; simpl; intros Hne;
    try (exfalso; apply Hne; reflexivity); auto.
Qed.

(** ** The frame loop *)

Lemma mapM_Forall2 {A B : Type} (f : A -> M B) (xs : list A) (w : World) :
  Forall2 (fun a b => exists w0, b = result (f a) w0) xs (result (mapM f xs) w).
Proof.
  revert w; induction xs as [|a xs IH]; intros w; simpl.
  - constructor.
  - run; constructor.
    + exists w; reflexivity.
    + apply IH.
Qed.

Lemma frame_dt_le (now last : R) : frame_dt now last <= 4 / 100.
Proof.
  unfold frame_dt, Rmin; destruct (Rle_dec 40 (now - last)); lra.
Qed.

(** A frame of a running instance: every particle goes through
    [drawStream], in order, with the frame's [dt] and size, and the frame
    leaves [last] at [now]. *)
Lemma loop_running (r : Rect) (dpr now : R) (it : Instance) (w : World) :
  i_running it = true ->
  let it' := result (loop random r dpr now it) w in
  i_last it' = now /\ i_running it' = true /\
  Forall2
    (fun s s' => exists w0,
       s' = result (drawStream random (i_opt it) (i_W it') (i_H it') s
                      (frame_dt now (i_last it))) w0)
    (i_streams it) (i_streams it').
Proof.
  intros Hrun it'; subst it'; unfold loop; rewrite Hrun; simpl negb; cbv iota.
  match goal with
  | |- context [match ?e with pair _ _ => _ end] => destruct e as [[W H] DPR]
  end.
  run; simpl; repeat split; auto.
  apply (mapM_Forall2 (fun s => drawStream random (i_opt it) W H s _)).
Qed.

(** C10: in every frame of a running instance each particle is updated by
    [drawStream] with [dt = Math.min(40, now - last) / 1000], which never
    exceeds 0.04. *)
Theorem loop_dt_capped (r : Rect) (dpr now : R) (it : Instance) (w : World) :
  i_running it = true ->
  let dt := Rmin 40 (now - i_last it) / 1000 in
  let it' := result (loop random r dpr now it) w in
  dt <= 4 / 100 /\
  Forall2
    (fun s s' => exists w0,
       s' = result (drawStream random (i_opt it) (i_W it') (i_H it') s dt) w0)
    (i_streams it) (i_streams it').
Proof.
  intros Hrun dt it'; split.
  - apply frame_dt_le.
  - apply (loop_running r dpr now it w Hrun).
Qed.

(** C9: [resume] on a running instance changes neither the instance nor the
    world (no frame is requested); on a paused instance it requests exactly
    one frame and sets [last] to the instant of the call, so the particles
    of the next frame advance by [Math.min(40, now' - now) / 1000]; a second
    [resume] then does nothing. *)
Theorem resume_spec (now : R) (it : Instance) (w : World) :
  (i_running it = true -> resume now it w = (it, w)) /\
  (i_running it = false ->
     let it' := result (resume now it) w in
     let w' := after (resume now it) w in
     i_running it' = true /\ i_last it' = now /\
     i_streams it' = i_streams it /\
     i_raf it' = next_frame w /\ frames w' = frames w ++ [i_raf it'] /\
     (forall now2, resume now2 it' w' = (it', w')) /\
     (forall r dpr now' w1,
        let it2 := result (loop random r dpr now' it') w1 in
        Forall2
          (fun s s' => exists w0,
             s' = result (drawStream random (i_opt it) (i_W it2) (i_H it2) s
                            (Rmin 40 (now' - now) / 1000)) w0)
          (i_streams it) (i_streams it2))).
Proof.
  split; intros Hrun.
  - unfold resume; rewrite Hrun; reflexivity.
  - intros it' w'; subst it' w'; unfold resume; rewrite Hrun; run; simpl.
    repeat split; auto.
    intros r dpr now' w1.
    match goal with |- context [loop random r dpr now' ?i] =>
      pose proof (loop_running r dpr now' i w1 eq_refl) as (_ & _ & HF)
    end.
    exact HF.
Qed.

(** ** Melting *)

(** C5, as the code has it: a melting particle paints one circle, of radius
    [10 + 10 * p] and of alpha [0.18 * (1 - p)], where
    [p = clamp((s.t + dt) / meltTime, 0, 1)]; when [p >= 1], that is when
    [s.t + dt] has reached [meltTime], it becomes waiting with [s.t] at 0 and
    [s.wait] set by [rand(spawnGapMin, spawnGapMax)] from the next value of
    [Math.random]; otherwise it keeps melting and draws no random number. *)
Theorem melt_step (opt : Options) (W H : R) (s : Stream) (dt : R)
  (w : World) :
  s_state s = st_melt ->
  0 < meltTime opt ->
  let p := clamp ((s_t s + dt) / meltTime opt) 0 1 in
  let s' := result (drawStream random opt W H s dt) w in
  let w' := after (drawStream random opt W H s dt) w in
  canvas w' =
    canvas w ++
    [FillCircle (s_x s) (H - 10 + 14) (10 + 10 * p) (18 / 100 * (1 - p))] /\
  (1 <= p <-> meltTime opt <= s_t s + dt) /\
  (1 <= p ->
     s_state s' = st_wait /\ s_t s' = 0 /\
     s_wait s' =
       spawnGapMin opt + random (seed w) * (spawnGapMax opt - spawnGapMin opt) /\
     seed w' = S (seed w) /\
     (0 <= random (seed w) < 1 -> spawnGapMin opt <= spawnGapMax opt ->
        spawnGapMin opt <= s_wait s' <= spawnGapMax opt)) /\
  (p < 1 ->
     s_state s' = st_melt /\ s_t s' = s_t s + dt /\
     s_wait s' = s_wait s /\ seed w' = seed w).
Proof.
  intros Hst Hm p s' w'; subst s' w'; unfold drawStream; rewrite Hst.
  fold p; run.
  assert (Hp : 1 <= p <-> meltTime opt <= s_t s + dt).
  { unfold p; rewrite clamp_ge_hi by lra; split; intros Hle.
    - apply (Rmult_le_compat_r (meltTime opt)) in Hle; [|lra].
      unfold Rdiv in Hle; rewrite Rmult_assoc, Rinv_l in Hle; lra.
    - apply (Rmult_le_reg_r (meltTime opt)); [lra|].
      unfold Rdiv; rewrite Rmult_assoc, Rinv_l; lra. }
  split; [|split; [exact Hp|split]].
  - cases_R; run; simpl; do 2 f_equal; apply FillCircle_eq; lra.
  - intros H1; eval_R; run; simpl.
    unfold rand, Math_random, fill, result, after, bind, ret; simpl.
    repeat split; auto; nra.
  - intros H1; eval_R; run; simpl; repeat split; auto.
Qed.

(** ** Waiting and respawn *)

Lemma makeStream_run (opt : Options) (W H : R) (first : bool) (w : World) :
  let n := seed w in
  let s := result (makeStream random opt W H first) w in
  let w' := after (makeStream random opt W H first) w in
  s_x s = 0 + random n * (W - 0) /\
  s_y s =
    (if first
     then - H + random (S n) * (H - - H)
     else - H * (7 / 10) + random (S n) * (-60 - - H * (7 / 10))) /\
  s_vy s = speedMin opt + random (S (S n)) * (speedMax opt - speedMin opt) /\
  s_vx s = windMin opt + random (S (S (S n))) * (windMax opt - windMin opt) /\
  s_phase s = 0 + random (S (S (S (S n)))) * (PI * 2 - 0) /\
  s_state s = st_fall /\ s_t s = 0 /\ s_wait s = 0 /\
  seed w' = S (S (S (S (S n)))) /\ canvas w' = canvas w /\
  frames w' = frames w /\ next_frame w' = next_frame w.
Proof.
  unfold makeStream; destruct first; run; simpl; repeat split.
Qed.

Lemma replicateM_Forall {A : Type} (f : M A) (n : nat) (w : World) :
  Forall (fun a => exists w0, a = result f w0) (result (replicateM n f) w) /\
  List.length (result (replicateM n f) w) = n.
Proof.
  revert w; induction n as [|n IH]; intros w; simpl.
  - split; [constructor | reflexivity].
  - run; simpl; destruct (IH (after f w)) as [IH1 IH2]; split.
    + constructor; [exists w; reflexivity | exact IH1].
    + now rewrite IH2.
Qed.

Lemma replicateM_makeStream_frames (opt : Options) (W H : R) (first : bool)
  (n : nat) (w : World) :
  frames (after (replicateM n (makeStream random opt W H first)) w) = frames w.
Proof.
  revert w; induction n as [|n IH]; intros w; simpl; [reflexivity|].
  run; simpl; rewrite IH.
  apply (makeStream_run opt W H first w).
Qed.

(** [createInstance] returns an instance only for a count below 2^32. *)
Lemma createInstance_inr (r : Rect) (dpr now : R) (u : UserOpts) (w : World)
  (it : Instance) :
  result (createInstance random (Some r) true dpr now u) w = inr it ->
  (streams (assign DEFAULTS u) < 2 ^ 32)%Z.
Proof.
  destruct (Z.leb_spec (2 ^ 32) (streams (assign DEFAULTS u))) as [Hge|Hlt];
    [|intros _; exact Hlt].
  apply Z.leb_le in Hge.
  unfold createInstance, resize; simpl negb; cbv iota; rewrite Hge.
  discriminate.
Qed.

(** What [createInstance] returns when the target resolves, the canvas
    gives a context and the count is below 2^32. *)
Lemma createInstance_ok (r : Rect) (dpr now : R) (u : UserOpts) (w : World) :
  (streams (assign DEFAULTS u) < 2 ^ 32)%Z ->
  exists it,
    result (createInstance random (Some r) true dpr now u) w = inr it /\
    i_opt it = assign DEFAULTS u /\
    i_running it = true /\ i_last it = now /\
    List.length (i_streams it) = Z.to_nat (streams (i_opt it)) /\
    Forall
      (fun s => exists w0,
         s = result (makeStream random (i_opt it) (i_W it) (i_H it) true) w0)
      (i_streams it) /\
    frames (after (createInstance random (Some r) true dpr now u) w) =
      frames w ++ [i_raf it].
Proof.
  intros Hlt; apply Z.leb_gt in Hlt.
  unfold createInstance, resize; simpl negb; cbv iota; rewrite Hlt; run.
  eexists; split; [reflexivity|].
  cbn [i_opt i_running i_last i_streams i_W i_H i_raf].
  repeat split; try apply replicateM_Forall.
  unfold requestAnimationFrame at 1 2; unfold result at 1, after at 1.
  cbn [fst snd frames]; f_equal.
  apply replicateM_makeStream_frames.
Qed.

(** C6: a waiting particle has [s.wait] lowered by [dt] at every step; once
    [s.wait <= 0] it is falling again with [s.t] at 0 and with [x], [vy],
    [vx] and [phase] drawn as [makeStream(true)] draws them at creation,
    while [y] is drawn by [rand(-0.7 * H, -60)], which is negative, and not
    by the [rand(-H, H)] of creation; the particles of [createInstance] are
    all built by [makeStream(true)]. *)
Theorem wait_step (opt : Options) (W H : R) (s : Stream) (dt : R)
  (w : World) :
  s_state s = st_wait ->
  let s' := result (drawStream random opt W H s dt) w in
  let w' := after (drawStream random opt W H s dt) w in
  let n := seed w in
  s_wait s' = s_wait s - dt /\
  (0 < s_wait s - dt ->
     s_state s' = st_wait /\ s_x s' = s_x s /\ s_y s' = s_y s /\
     s_vy s' = s_vy s /\ s_vx s' = s_vx s /\ w' = w) /\
  (s_wait s - dt <= 0 ->
     let c := result (makeStream random opt W H true) w in
     s_state s' = st_fall /\ s_t s' = 0 /\
     s_x s' = s_x c /\ s_vy s' = s_vy c /\ s_vx s' = s_vx c /\
     s_phase s' = s_phase c /\
     s_x s' = random n * W /\
     s_vy s' = speedMin opt + random (S (S n)) * (speedMax opt - speedMin opt) /\
     s_vx s' =
       windMin opt + random (S (S (S n))) * (windMax opt - windMin opt) /\
     s_phase s' = random (S (S (S (S n)))) * (PI * 2) /\
     s_y s' = - H * (7 / 10) + random (S n) * (-60 - - H * (7 / 10)) /\
     s_y c = - H + random (S n) * (H - - H) /\
     (0 < H -> 0 <= random (S n) < 1 -> s_y s' < 0)) /\
  (forall r dpr now u w0 it,
     result (createInstance random (Some r) true dpr now u) w0 = inr it ->
     Forall
       (fun s0 => exists w1,
          s0 = result (makeStream random (i_opt it) (i_W it) (i_H it) true) w1)
       (i_streams it)).
Proof.
  intros Hst s' w' n; subst s' w'; unfold drawStream; rewrite Hst.
  split; [|split; [|split]].
  - run; cases_R; run; reflexivity.
  - intros Hpos; run; eval_R; run; simpl; repeat split.
  - intros Hle; run; eval_R; run.
    simpl s_state; simpl s_t; simpl s_x; simpl s_y; simpl s_vy; simpl s_vx;
      simpl s_phase; subst n.
    repeat split; try reflexivity; try lra.
    intros HH Hu; nra.
  - intros r dpr now u w0 it Hit.
    destruct (createInstance_ok r dpr now u w0
                (createInstance_inr r dpr now u w0 it Hit))
      as (it0 & Hit0 & _ & _ & _ & _ & HF & _).
    rewrite Hit in Hit0; injection Hit0 as <-; exact HF.
Qed.

(** ** Horizontal wrap-around *)

(** The canvas is never narrower or lower than 1: [resize] sees to it at
    creation and in every frame, so the steps below run with [1 <= W] and
    [1 <= H]. *)
Lemma resize_ge_1 (opt : Options) (r : Rect) (dpr : R) :
  1 <= fst (fst (resize opt r dpr)) /\ 1 <= snd (fst (resize opt r dpr)).
Proof. unfold resize; simpl; split; apply Rmax_l. Qed.

Lemma createInstance_size (r : Rect) (dpr now : R) (u : UserOpts)
  (w : World) (it : Instance) :
  result (createInstance random (Some r) true dpr now u) w = inr it ->
  1 <= i_W it /\ 1 <= i_H it.
Proof.
  intros Hit.
  pose proof (createInstance_inr r dpr now u w it Hit) as Hlt.
  apply Z.leb_gt in Hlt; revert Hit.
  unfold createInstance, resize; simpl negb; cbv iota; rewrite Hlt; run.
  intros Hit; injection Hit as <-; simpl; split; apply Rmax_l.
Qed.

Lemma loop_size (r : Rect) (dpr now : R) (it : Instance) (w : World) :
  1 <= i_W it /\ 1 <= i_H it ->
  1 <= i_W (result (loop random r dpr now it) w) /\
  1 <= i_H (result (loop random r dpr now it) w).
Proof.
  intros Hit; unfold loop; destruct (i_running it); simpl negb; cbv iota;
    [|exact Hit].
  destruct (resize_ge_1 (i_opt it) r dpr) as [HW HH].
  destruct (negb _ || negb _).
  - destruct (resize (i_opt it) r dpr) as [[W H] DPR]; run; simpl in *; auto.
  - run; simpl; exact Hit.
Qed.

(** A falling particle that is lower than [H - 2] after its move is
    flashing when the step returns. *)
Lemma fall_to_flash (opt : Options) (W H : R) (s : Stream) (dt : R)
  (w : World) :
  s_state s = st_fall ->
  let s' := result (drawStream random opt W H s dt) w in
  s_y s' = s_y s + s_vy s * dt /\
  (H - 2 < s_y s' -> s_state s' = st_flash /\ s_t s' = 0) /\
  (s_y s' <= H - 2 -> s_state s' = st_fall /\ s_t s' = s_t s).
Proof.
  intros Hst s'; subst s'; unfold drawStream; rewrite Hst; run.
  cases_R; simpl; repeat split; auto; intros; lra.
Qed.

(** C3, as the code has it: after the move of a falling particle [x] lies in
    [[-50, W + 50]], being sent to [W + 50] from below [-50] and to [-50]
    from above [W + 50]; a flashing or melting particle keeps its [x]; a
    waiting particle keeps its [x] until it respawns, and then gets
    [x = Math.random() * W], which lies in [[0, W]].  So every step keeps
    [x] in [[-50, W + 50]]. *)
Theorem x_stays_in_band (opt : Options) (W H : R) (s : Stream) (dt : R)
  (w : World) :
  1 <= W ->
  0 <= random (seed w) < 1 ->
  let s' := result (drawStream random opt W H s dt) w in
  let x0 := s_x s + s_vx s * dt in
  (s_state s = st_fall ->
     -50 <= s_x s' <= W + 50 /\
     (x0 < -50 -> s_x s' = W + 50) /\
     (W + 50 < x0 -> s_x s' = -50) /\
     (-50 <= x0 <= W + 50 -> s_x s' = x0)) /\
  (s_state s = st_flash \/ s_state s = st_melt -> s_x s' = s_x s) /\
  (s_state s = st_wait ->
     (0 < s_wait s - dt -> s_x s' = s_x s) /\
     (s_wait s - dt <= 0 ->
        s_x s' = random (seed w) * W /\ 0 <= s_x s' <= W)) /\
  (-50 <= s_x s <= W + 50 -> -50 <= s_x s' <= W + 50).
Proof.
  intros HW Hu s' x0; subst s' x0; unfold drawStream.
  destruct (s_state s) eqn:Hst.
  - split; [intros _ | split; [intros [?|?]; discriminate
                              | split; [discriminate|intros _]]];
      run; cases_R; simpl; repeat split; intros; lra.
  - split; [discriminate | split; [intros _ | split; [discriminate|]]];
      run; cases_R; simpl; auto.
  - split; [discriminate | split; [intros _ | split; [discriminate|]]];
      run; cases_R; run; simpl; auto.
  - split; [discriminate | split; [intros [?|?]; discriminate|]].
    run; cases_R; run; simpl; (split; [intros _; split|]); intros; try lra;
      try nra.
Qed.

(** ** Creation *)

(** C2, as the code has it: [createInstance] checks no range, no duration
    and no sign.  When the target resolves, the canvas gives a 2d context and
    the count is below 2^32, it returns a running instance with
    [max(0, streams)] particles and one frame requested, whatever the other
    options are.  Its own two throws, for a target that does not resolve and
    for a canvas without a 2d context, come before any particle exists and
    before any frame is requested, and so does the [RangeError] of
    [Array.from] for a count of 2^32 or more. *)
Theorem createInstance_checks_no_option (target : option Rect)
  (ctxOk : bool) (dpr now : R) (u : UserOpts) (w : World) :
  let out := createInstance random target ctxOk dpr now u w in
  (target = None -> out = (inl target_not_found, w)) /\
  (target <> None -> ctxOk = false ->
     out = (inl context_not_available, w)) /\
  (target <> None -> ctxOk = true ->
     (2 ^ 32 <= streams (assign DEFAULTS u))%Z ->
     out = (inl RangeError, w)) /\
  (target <> None -> ctxOk = true ->
     (streams (assign DEFAULTS u) < 2 ^ 32)%Z ->
     exists it,
       fst out = inr it /\
       i_opt it = assign DEFAULTS u /\
       i_running it = true /\
       List.length (i_streams it) = Z.to_nat (streams (assign DEFAULTS u)) /\
       frames (snd out) = frames w ++ [i_raf it]).
Proof.
  intros out; subst out; split; [|split; [|split]].
  - intros ->; reflexivity.
  - intros Ht ->; destruct target; [reflexivity | congruence].
  - intros Ht -> Hge; destruct target as [r|]; [|congruence].
    apply Z.leb_le in Hge.
    unfold createInstance, resize; simpl negb; cbv iota; rewrite Hge.
    reflexivity.
  - intros Ht -> Hlt; destruct target as [r|]; [|congruence].
    destruct (createInstance_ok r dpr now u w Hlt)
      as (it & Hit & Hopt & Hrun & _ & Hlen & _ & Hfr).
    exists it; rewrite Hopt in Hlen; repeat split; assumption.
Qed.

(** ** The trail of a falling particle *)

(** The canvas after the step of a falling particle: the LEDs of the trail,
    head first. *)
Lemma fall_canvas (opt : Options) (W H : R) (s : Stream) (dt : R)
  (w : World) :
  s_state s = st_fall ->
  let s' := result (drawStream random opt W H s dt) w in
  let w' := after (drawStream random opt W H s dt) w in
  let tw := 1 + sin (s_phase s') * twinkle opt in
  let headIndex := Zfloor (s_y s' / spacingOf opt) in
  w' = after (for_upto (trailLeds opt)
                (drawLed opt H (s_x s') tw headIndex)) w /\
  canvas w' =
    canvas w ++
    flat_map (ledOps opt H (s_x s') tw headIndex)
      (seq 0 (Z.to_nat (trailLeds opt))).
Proof.
  intros Hst s' w' tw hi.
  assert (E : w' = after (for_upto (trailLeds opt)
                            (drawLed opt H (s_x s') tw hi)) w).
  { subst s' w' tw hi; unfold drawStream; rewrite Hst; run.
    cases_R; run; simpl; reflexivity. }
  split; [exact E|]; rewrite E; unfold for_upto, after.
  rewrite (for_from_paints _ _ 0 _ (drawLed_paints opt H (s_x s') tw hi) w).
  reflexivity.
Qed.

(** C1, as the code has it: every capsule a falling particle paints has an
    alpha that is positive and at most [0.92 * (1 + twinkle)], which is
    1.0856 for the default [twinkle] of 0.18; it is at most 1 when
    [0.92 * (1 + twinkle) <= 1]. *)
Theorem trail_alpha_bound (opt : Options) (W H : R) (s : Stream) (dt : R)
  (w : World) :
  s_state s = st_fall ->
  0 <= headBoost opt -> 0 < meltZone opt -> 0 <= twinkle opt ->
  exists ops,
    canvas (after (drawStream random opt W H s dt) w) = canvas w ++ ops /\
    forall x y cw ch r a,
      In (FillCapsule x y cw ch r a) ops ->
      0 < a <= 92 / 100 * (1 + twinkle opt) /\
      (92 / 100 * (1 + twinkle opt) <= 1 -> 0 <= a <= 1).
Proof.
  intros Hst Hhb Hmz Htw.
  destruct (fall_canvas opt W H s dt w Hst) as [_ Hcv].
  eexists; split; [exact Hcv|].
  intros x y cw ch r a Hin.
  apply in_flat_map in Hin; destruct Hin as (i & Hi & Hin).
  apply in_seq in Hi.
  apply ledOps_In in Hin; destruct Hin as (_ & Hpos & [Hop|Hop]);
    [discriminate|].
  injection Hop as _ _ _ _ _ ->.
  assert (Hle := ledAlpha_le opt H _ _ i ltac:(lia) Hhb Hmz Htw
                   (SIN_bound _) Hpos).
  split; [split; [exact Hpos | exact Hle] | intros; lra].
Qed.

(** C8, as the code has it, for a spacing and a melt zone other than 0 (so
    that no quotient of the step is a division by zero): the LED of index
    [i < trailLeds] of a falling particle is at
    [ly = floor(y / spacing) * spacing - i * spacing]; it is skipped when
    [ly] lies outside [[-40, H + 40]], and also when [ly] lies inside and
    its alpha is not positive; it is painted, as a capsule centred at
    [(x, ly)], exactly when [ly] lies inside and its alpha is positive. *)
Theorem led_painted_iff (opt : Options) (W H : R) (s : Stream) (dt : R)
  (w : World) (i : nat) :
  s_state s = st_fall ->
  spacingOf opt <> 0 -> meltZone opt <> 0 ->
  (i < Z.to_nat (trailLeds opt))%nat ->
  let s' := result (drawStream random opt W H s dt) w in
  let w' := after (drawStream random opt W H s dt) w in
  let sp := spacingOf opt in
  let tw := 1 + sin (s_phase s') * twinkle opt in
  let headIndex := Zfloor (s_y s' / sp) in
  let ly := ledY sp headIndex i in
  let a := ledAlpha opt H tw ly i in
  let h := if Nat.eqb i 0 then segHead opt else segBody opt in
  let led := drawLed opt H (s_x s') tw headIndex i in
  w' = after (for_upto (trailLeds opt)
                (drawLed opt H (s_x s') tw headIndex)) w /\
  s_y s' = s_y s + s_vy s * dt /\
  ly = IZR (Zfloor (s_y s' / sp)) * sp - INR i * sp /\
  (ly < -40 \/ H + 40 < ly -> forall w0, led w0 = (tt, w0)) /\
  (-40 <= ly <= H + 40 -> a <= 0 -> forall w0, led w0 = (tt, w0)) /\
  (-40 <= ly <= H + 40 -> 0 < a ->
     forall w0, exists g,
       canvas (after led w0) =
         canvas w0 ++ g ++
         [FillCapsule (s_x s' - segW opt / 2) (ly - h / 2) (segW opt) h
            (Rmax (segW opt) h * (5 / 10)) a]).
Proof.
  intros Hst _ _ _ s' w' sp tw hi ly a h led.
  destruct (fall_canvas opt W H s dt w Hst) as [Hw _].
  destruct (fall_to_flash opt W H s dt w Hst) as [Hy _].
  split; [exact Hw|split; [exact Hy|split; [apply ledY_formula|]]].
  assert (Hp := drawLed_paints opt H (s_x s') tw hi i).
  fold led in Hp; unfold ledOps in Hp; fold sp in Hp; fold ly in Hp.
  cbv zeta in Hp; fold a in Hp.
  split; [|split].
  - intros Hout; assert (E : Rltb ly (-40) || Rltb (H + 40) ly = true).
    { destruct Hout as [Ho|Ho]; apply Rltb_true in Ho; rewrite Ho;
        [reflexivity | apply orb_true_r]. }
    rewrite E in Hp; intros w0; apply paints_nothing, Hp.
  - intros [Hlo Hhi] Ha.
    apply Rltb_false in Hlo, Hhi; apply Rleb_true in Ha.
    rewrite Hlo, Hhi, Ha in Hp; intros w0; apply paints_nothing, Hp.
  - intros [Hlo Hhi] Ha.
    apply Rltb_false in Hlo, Hhi; apply Rleb_false in Ha.
    rewrite Hlo, Hhi, Ha in Hp; simpl in Hp; intros w0.
    unfold after; rewrite Hp; simpl.
    eexists; unfold segmentOps; fold h; reflexivity.
Qed.

(** The fields a falling step writes. *)
Lemma fall_fields (opt : Options) (W H : R) (s : Stream) (dt : R)
  (w : World) :
  s_state s = st_fall ->
  let s' := result (drawStream random opt W H s dt) w in
  let x0 := s_x s + s_vx s * dt in
  let x1 := if Rltb x0 (-50) then W + 50 else x0 in
  s_x s' = (if Rltb (W + 50) x1 then -50 else x1) /\
  s_y s' = s_y s + s_vy s * dt /\
  s_phase s' = s_phase s + 115 / 100 * dt.
Proof.
  intros Hst s' x0 x1; subst s' x0 x1; unfold drawStream; rewrite Hst; run.
  destruct (Rltb (H - 2) _); simpl; repeat split.
Qed.

End Properties.

(** * Concrete runs *)

(** C1 fails as stated: with the default options, the head of a falling
    particle whose twinkle is at its brightest is painted with alpha
    [0.92 * 1.18 = 1.0856]. *)
Lemma trail_alpha_above_one :
  In (FillCapsule (50 - 36 / 10 / 2) (96 - 20 / 2) (36 / 10) 20 10
        (10856 / 10000))
     (canvas (after (drawStream always_half DEFAULTS 100 200 falling_bright
                       (16 / 1000)) world0)) /\
  1 < 10856 / 10000.
Proof.
  split; [|lra].
  destruct (fall_canvas always_half DEFAULTS 100 200 falling_bright
              (16 / 1000) world0 eq_refl) as [_ Hcv].
  destruct (fall_fields always_half DEFAULTS 100 200 falling_bright
              (16 / 1000) world0 eq_refl) as (Hx & Hy & Hph).
  cbv zeta in Hcv, Hx, Hy, Hph.
  rewrite Hcv, Hx, Hy, Hph; clear Hcv Hx Hy Hph.
  cbn [s_x s_vx s_y s_vy s_phase falling_bright twinkle DEFAULTS spacingOf
       spacing segBody trailLeds canvas world0 app].
  eval_R.
  replace (PI / 2 - 115 / 100 * (16 / 1000) + 115 / 100 * (16 / 1000))
    with (PI / 2) by lra.
  rewrite sin_PI2, (Zfloor_eq 6) by lra.
  apply in_flat_map; exists 0%nat; split; [simpl; auto|].
  assert (Ely : ledY (spacingOf DEFAULTS) 6 0 = 96)
    by (unfold ledY, spacingOf; simpl; lra).
  assert (Ea : ledAlpha DEFAULTS 200 (1 + 1 * (18 / 100)) 96 0
               = 10856 / 10000).
  { unfold ledAlpha; simpl; eval_R.
    unfold Rmin; destruct (Rle_dec _ _); lra. }
  pose proof (ledOps_capsule DEFAULTS 200 (50 + 0 * (16 / 1000))
                (1 + 1 * (18 / 100)) 6 0) as Hc.
  cbv zeta in Hc; rewrite Ely, Ea in Hc.
  match goal with
  | |- In ?c _ => match type of Hc with _ -> _ -> In ?c' _ =>
      replace c with c'; [apply Hc; lra|] end
  end.
  simpl; apply FillCapsule_eq; try lra.
  unfold Rmax; destruct (Rle_dec _ _); lra.
Qed.

(** C8 fails as stated: after a step of 40 ms the head of [falling_low] is
    at [y = 210], its LED of index 0 is at [ly = 208], inside
    [[-40, 240]], and yet no head capsule (the only capsules of height 20)
    is painted: the melt zone has brought its alpha to 0. *)
Lemma head_in_range_not_painted :
  let step := drawStream always_half DEFAULTS 100 200 falling_low (4 / 100) in
  s_y (result step world0) = 210 /\
  ledY (spacingOf DEFAULTS)
    (Zfloor (s_y (result step world0) / spacingOf DEFAULTS)) 0 = 208 /\
  -40 <= 208 <= 200 + 40 /\
  forall x y cw r a,
    ~ In (FillCapsule x y cw 20 r a) (canvas (after step world0)).
Proof.
  intros step; subst step.
  destruct (fall_canvas always_half DEFAULTS 100 200 falling_low
              (4 / 100) world0 eq_refl) as [_ Hcv].
  destruct (fall_fields always_half DEFAULTS 100 200 falling_low
              (4 / 100) world0 eq_refl) as (_ & Hy & _).
  cbv zeta in Hcv, Hy.
  assert (Hy' : s_y (result (drawStream always_half DEFAULTS 100 200
                               falling_low (4 / 100)) world0) = 210)
    by (rewrite Hy; simpl; lra).
  assert (Hf : Zfloor (210 / spacingOf DEFAULTS) = 13%Z)
    by (apply Zfloor_eq; unfold spacingOf; simpl; lra).
  assert (Ely : ledY (spacingOf DEFAULTS) 13 0 = 208)
    by (unfold ledY, spacingOf; simpl; lra).
  rewrite Hcv, Hy', Hf; clear Hcv Hy.
  split; [reflexivity|].
  split; [exact Ely|].
  split; [lra|].
  intros x y cw r a Hin; cbn [canvas world0 app] in Hin.
  apply in_flat_map in Hin; destruct Hin as (i & _ & Hin).
  apply ledOps_In in Hin; cbv zeta in Hin.
  destruct Hin as (_ & Hpos & [Hop|Hop]); [discriminate|].
  destruct i as [|i].
  - rewrite Ely in Hpos; revert Hpos; unfold ledAlpha; simpl; eval_R.
    replace (Rmin 1 ((208 - (200 - 48)) / 48)) with 1
      by (unfold Rmin; destruct (Rle_dec _ _); lra).
    intros Hpos; nra.
  - injection Hop as _ _ _ Hh _ _; simpl in Hh; lra.
Qed.

(** C3 fails as stated: a waiting particle at [x = 0] whose wait ends is
    moved to [x = 0.5 * 100 = 50] by the respawn, outside the fall
    state. *)
Lemma wait_respawn_changes_x :
  s_state waiting_done = st_wait /\
  s_x waiting_done = 0 /\
  s_x (result (drawStream always_half DEFAULTS 100 200 waiting_done
                 (16 / 1000)) world0) = 50.
Proof.
  split; [reflexivity|split; [reflexivity|]].
  unfold drawStream; cbn [s_state s_wait waiting_done]; eval_R; run.
  cbn [s_x].
  destruct (makeStream_run always_half DEFAULTS 100 200 false world0)
    as (Hx & _); cbv zeta in Hx; rewrite Hx.
  unfold always_half; lra.
Qed.

(** C5 fails as stated: a particle that has melted for 0.11 s of the
    default 0.55 s has [p = 0.2]; its circle, of radius 12, is painted with
    alpha [0.18 * 0.8 = 0.144], not [1 - p = 0.8]. *)
Lemma melt_alpha_is_scaled :
  clamp ((s_t melting_start + 11 / 100) / meltTime DEFAULTS) 0 1 = 1 / 5 /\
  canvas (after (drawStream always_half DEFAULTS 100 200 melting_start
                   (11 / 100)) world0)
    = [FillCircle 50 204 12 (144 / 1000)] /\
  144 / 1000 <> 1 - 1 / 5.
Proof.
  assert (Hp : clamp ((s_t melting_start + 11 / 100) / meltTime DEFAULTS) 0 1
               = 1 / 5).
  { simpl; unfold clamp, Rmax, Rmin; repeat destruct (Rle_dec _ _); lra. }
  split; [exact Hp|split; [|lra]].
  unfold drawStream; cbn [s_state melting_start]; fold melting_start.
  rewrite Hp; run; eval_R; run; simpl.
  f_equal; apply FillCircle_eq; lra.
Qed.

(** C2 fails as stated: options with a negative count, two reversed ranges
    and non-positive durations are accepted; the instance runs, with no
    particle, and its first frame is requested. *)
Lemma bad_options_accepted :
  let opt := assign DEFAULTS bad_opts in
  (streams opt < 0)%Z /\ speedMax opt < speedMin opt /\
  spawnGapMax opt < spawnGapMin opt /\
  flashTime opt <= 0 /\ meltTime opt <= 0 /\
  exists it,
    createInstance always_half (Some {| width := 100; height := 200 |}) true
      1 0 bad_opts world0
    = (inr it, {| seed := 0; frames := [0%nat]; next_frame := 1;
                  canvas := [] |}) /\
    i_opt it = opt /\ i_running it = true /\ i_streams it = [].
Proof.
  simpl; repeat split; try lia; try lra.
  eexists; split; [reflexivity|]; repeat split.
Qed.

(** ** The theorems at the sample inputs *)

(** C4 at [flashing_edge]: 0.10 s of flash and a step of 0.04 s give exactly
    the default [flashTime] of 0.14 s, and the particle melts. *)
Lemma flash_to_melt_same_step_at_edge :
  s_state flashing_edge = st_flash /\
  flashTime DEFAULTS <= s_t flashing_edge + 4 / 100 /\
  s_state (result (drawStream always_half DEFAULTS 100 200 flashing_edge
                     (4 / 100)) world0) = st_melt.
Proof.
  assert (Hle : flashTime DEFAULTS <= s_t flashing_edge + 4 / 100)
    by (simpl; lra).
  split; [reflexivity|split; [exact Hle|]].
  apply (flash_to_melt_same_step always_half DEFAULTS 100 200 flashing_edge
           (4 / 100) world0 eq_refl), Hle.
Defined.

(** C7 at [melting_end]: the step that ends the melt leaves [s.t] at 0. *)
Lemma transition_resets_t_at_melt_end :
  s_t (result (drawStream always_half DEFAULTS 100 200 melting_end
                 (4 / 100)) world0) = 0.
Proof.
  apply (transition_resets_t always_half DEFAULTS 100 200 melting_end
           (4 / 100) world0).
  unfold drawStream; cbn [s_state s_t melting_end meltTime DEFAULTS].
  replace (clamp ((52 / 100 + 4 / 100) / (55 / 100)) 0 1) with 1
    by (unfold clamp, Rmax, Rmin; repeat destruct (Rle_dec _ _); lra).
  run; eval_R; run; cbn [s_state]; discriminate.
Defined.

(** C10 at [running_instance], 1000 ms after its last frame: the particle
    advances by 0.04 s only. *)
Lemma loop_dt_capped_at_stall :
  i_running running_instance = true /\
  Rmin 40 (1000 - i_last running_instance) / 1000 <= 4 / 100.
Proof.
  split; [reflexivity|].
  apply (loop_dt_capped always_half {| width := 100; height := 200 |} 1 1000
           running_instance world0 eq_refl).
Defined.

(** C9 at [running_instance] and [paused_instance]. *)
Lemma resume_spec_at_samples :
  resume 5 running_instance world0 = (running_instance, world0) /\
  i_last (result (resume 5 paused_instance) world0) = 5 /\
  frames (after (resume 5 paused_instance) world0) = [0%nat].
Proof.
  split.
  - apply (proj1 (resume_spec always_half 5 running_instance world0)).
    reflexivity.
  - destruct (proj2 (resume_spec always_half 5 paused_instance world0)
                eq_refl) as (_ & Hlast & _ & _ & Hfr & _).
    split; [exact Hlast | exact Hfr].
Defined.

(** C5 at [melting_end]: the melt is over and the wait drawn is
    [0.08 + 0.5 * (0.60 - 0.08)]. *)
Lemma melt_step_at_end :
  s_state melting_end = st_melt /\ 0 < meltTime DEFAULTS /\
  s_state (result (drawStream always_half DEFAULTS 100 200 melting_end
                     (4 / 100)) world0) = st_wait /\
  s_wait (result (drawStream always_half DEFAULTS 100 200 melting_end
                    (4 / 100)) world0)
    = 8 / 100 + 1 / 2 * (60 / 100 - 8 / 100).
Proof.
  assert (Hm : 0 < meltTime DEFAULTS) by (simpl; lra).
  split; [reflexivity|split; [exact Hm|]].
  destruct (melt_step always_half DEFAULTS 100 200 melting_end (4 / 100)
              world0 eq_refl Hm) as (_ & Hp & Hw & _).
  assert (H1 : meltTime DEFAULTS <= s_t melting_end + 4 / 100)
    by (simpl; lra).
  apply Hp in H1; destruct (Hw H1) as (Hs & _ & Hwait & _).
  split; [exact Hs | exact Hwait].
Defined.

(** C6 at [waiting_done]: the respawned particle falls from [y < 0]. *)
Lemma wait_step_at_done :
  s_state waiting_done = st_wait /\
  s_state (result (drawStream always_half DEFAULTS 100 200 waiting_done
                     (16 / 1000)) world0) = st_fall /\
  s_y (result (drawStream always_half DEFAULTS 100 200 waiting_done
                 (16 / 1000)) world0) < 0.
Proof.
  split; [reflexivity|].
  destruct (wait_step always_half DEFAULTS 100 200 waiting_done (16 / 1000)
              world0 eq_refl) as (_ & _ & Hr & _).
  assert (Hle : s_wait waiting_done - 16 / 1000 <= 0) by (simpl; lra).
  destruct (Hr Hle) as (Hs & _ & _ & _ & _ & _ & _ & _ & _ & _ & _ & _ & Hy).
  split; [exact Hs|].
  apply Hy; [lra | unfold always_half; lra].
Defined.

(** C3 at a particle leaving the canvas on the left: it comes back at
    [W + 50 = 150]. *)
Lemma x_stays_in_band_at_left_edge :
  let s :=
    {| s_x := -49; s_y := 10; s_vy := 300; s_vx := -100; s_phase := 0;
       s_state := st_fall; s_t := 0; s_wait := 0 |} in
  1 <= 100 /\ 0 <= always_half (seed world0) < 1 /\
  s_x (result (drawStream always_half DEFAULTS 100 200 s (4 / 100)) world0)
    = 100 + 50.
Proof.
  intros s.
  assert (HW : 1 <= 100) by lra.
  assert (Hu : 0 <= always_half (seed world0) < 1)
    by (unfold always_half; lra).
  split; [exact HW|split; [exact Hu|]].
  destruct (x_stays_in_band always_half DEFAULTS 100 200 s (4 / 100) world0
              HW Hu) as (Hf & _).
  destruct (Hf eq_refl) as (_ & Hlo & _).
  apply Hlo; simpl; lra.
Defined.

(** C2 at the default options: the instance runs with 34 particles. *)
Lemma createInstance_checks_no_option_at_defaults :
  exists it,
    fst (createInstance always_half (Some {| width := 100; height := 200 |})
           true 1 0 no_opts world0) = inr it /\
    List.length (i_streams it) = 34%nat.
Proof.
  destruct (createInstance_checks_no_option always_half
              (Some {| width := 100; height := 200 |}) true 1 0 no_opts
              world0) as (_ & _ & _ & Hok).
  destruct (Hok ltac:(discriminate) eq_refl ltac:(simpl; lia))
    as (it & Hit & _ & _ & Hlen & _).
  exists it; split; [exact Hit | exact Hlen].
Defined.

(** C1 at [falling_bright] with the default options. *)
Lemma trail_alpha_bound_at_defaults :
  s_state falling_bright = st_fall /\
  0 <= headBoost DEFAULTS /\ 0 < meltZone DEFAULTS /\ 0 <= twinkle DEFAULTS /\
  exists ops,
    canvas (after (drawStream always_half DEFAULTS 100 200 falling_bright
                     (16 / 1000)) world0) = ops /\
    forall x y cw ch r a,
      In (FillCapsule x y cw ch r a) ops -> 0 < a <= 10856 / 10000.
Proof.
  assert (Hhb : 0 <= headBoost DEFAULTS) by (simpl; lra).
  assert (Hmz : 0 < meltZone DEFAULTS) by (simpl; lra).
  assert (Htw : 0 <= twinkle DEFAULTS) by (simpl; lra).
  split; [reflexivity|split; [exact Hhb|split; [exact Hmz|split;
    [exact Htw|]]]].
  destruct (trail_alpha_bound always_half DEFAULTS 100 200 falling_bright
              (16 / 1000) world0 eq_refl Hhb Hmz Htw) as (ops & Hcv & Hb).
  exists ops; split; [exact Hcv|].
  intros x y cw ch r a Hin; destruct (Hb x y cw ch r a Hin) as [Hr _].
  simpl in Hr; lra.
Defined.

(** C8 at [falling_low], whose head is at [y = 210] after the step: the
    LED of index 0, at [ly = 208], is inside [[-40, 240]] and skipped, its
    alpha being 0; the LED of index 1, at [ly = 192], is painted. *)
Lemma led_painted_iff_at_low :
  let s' := result (drawStream always_half DEFAULTS 100 200 falling_low
                      (4 / 100)) world0 in
  let tw := 1 + sin (s_phase s') * twinkle DEFAULTS in
  let headIndex := Zfloor (s_y s' / spacingOf DEFAULTS) in
  s_state falling_low = st_fall /\
  spacingOf DEFAULTS <> 0 /\ meltZone DEFAULTS <> 0 /\
  (1 < Z.to_nat (trailLeds DEFAULTS))%nat /\
  ledY (spacingOf DEFAULTS) headIndex 0 = 208 /\
  drawLed DEFAULTS 200 (s_x s') tw headIndex 0 world0 = (tt, world0) /\
  ledY (spacingOf DEFAULTS) headIndex 1 = 192 /\
  exists g,
    canvas (after (drawLed DEFAULTS 200 (s_x s') tw headIndex 1) world0) =
      canvas world0 ++ g ++
      [FillCapsule (s_x s' - segW DEFAULTS / 2) (192 - segBody DEFAULTS / 2)
         (segW DEFAULTS) (segBody DEFAULTS)
         (Rmax (segW DEFAULTS) (segBody DEFAULTS) * (5 / 10))
         (ledAlpha DEFAULTS 200 tw 192 1)].
Proof.
  intros s' tw headIndex.
  assert (Hsp : spacingOf DEFAULTS <> 0) by (unfold spacingOf; simpl; lra).
  assert (Hmz : meltZone DEFAULTS <> 0) by (simpl; lra).
  assert (Hn : (1 < Z.to_nat (trailLeds DEFAULTS))%nat) by (simpl; lia).
  destruct (led_painted_iff always_half DEFAULTS 100 200 falling_low
              (4 / 100) world0 0 eq_refl Hsp Hmz ltac:(lia))
    as (_ & Hy & _ & _ & Hskip & _).
  destruct (led_painted_iff always_half DEFAULTS 100 200 falling_low
              (4 / 100) world0 1 eq_refl Hsp Hmz Hn)
    as (_ & _ & _ & _ & _ & Hpaint).
  cbv zeta in Hy, Hskip, Hpaint; fold s' in Hy, Hskip, Hpaint.
  fold tw in Hskip, Hpaint; fold headIndex in Hskip, Hpaint.
  assert (Hhi : headIndex = 13%Z).
  { unfold headIndex; rewrite Hy; apply Zfloor_eq.
    unfold spacingOf; simpl; lra. }
  assert (E0 : ledY (spacingOf DEFAULTS) headIndex 0 = 208)
    by (rewrite Hhi; unfold ledY, spacingOf; simpl; lra).
  assert (E1 : ledY (spacingOf DEFAULTS) headIndex 1 = 192)
    by (rewrite Hhi; unfold ledY, spacingOf; simpl; lra).
  assert (Htw : 82 / 100 <= tw).
  { unfold tw; destruct (SIN_bound (s_phase s')) as [Hs _]; simpl; lra. }
  rewrite E0 in Hskip; rewrite E1 in Hpaint.
  split; [reflexivity|split; [exact Hsp|split; [exact Hmz|split;
    [exact Hn|split; [exact E0|split; [|split; [exact E1|]]]]]]].
  - apply Hskip; [lra|].
    unfold ledAlpha; simpl; eval_R.
    replace (Rmin 1 ((208 - (200 - 48)) / 48)) with 1
      by (unfold Rmin; destruct (Rle_dec _ _); lra).
    nra.
  - apply Hpaint; [lra|].
    unfold ledAlpha; simpl; eval_R.
    replace (Rmin 1 ((192 - (200 - 48)) / 48)) with (40 / 48)
      by (unfold Rmin; destruct (Rle_dec _ _); lra).
    nra.
Defined.

(** * Further properties of the code *)

(** ** Math helpers *)

(** X1: [clamp(v, a, b)] with [a <= b] lies in [[a, b]], is [v] on
    [[a, b]], [a] below and [b] above; with the bounds reversed it is the
    lower argument [a], whatever [v]. *)
Theorem clamp_spec (v a b : R) :
  (a <= b ->
     a <= clamp v a b <= b /\
     (a <= v <= b -> clamp v a b = v) /\
     (v <= a -> clamp v a b = a) /\
     (b <= v -> clamp v a b = b)) /\
  (b < a -> clamp v a b = a).
Proof.
  unfold clamp, Rmax, Rmin; split; intros Hab;
    destruct (Rle_dec b v); destruct (Rle_dec a _); repeat split; intros;
    lra.
Qed.

(** One call of [rand]. *)
Lemma rand_value (random : nat -> R) (a b : R) (w : World) :
  rand random a b w =
    (a + random (seed w) * (b - a),
     {| seed := S (seed w); frames := frames w;
        next_frame := next_frame w; canvas := canvas w |}).
Proof. reflexivity. Qed.

(** X2: [rand(a, b)] reads one value of [Math.random]; its result lies
    between its two arguments, whichever is the larger: in [[a, b]] for
    [a <= b] and in [[b, a]] for a reversed range. *)
Theorem rand_range (random : nat -> R) (a b : R) (w : World) :
  0 <= random (seed w) < 1 ->
  let x := result (rand random a b) w in
  seed (after (rand random a b) w) = S (seed w) /\
  (a <= b -> a <= x <= b) /\
  (b <= a -> b <= x <= a).
Proof.
  intros Hu x; subst x; unfold result, after; rewrite rand_value; simpl.
  repeat split; intros; nra.
Qed.

(** [x | 0] is [Math.floor(x)] on the non-negative numbers below 2^31. *)
Lemma toInt32_floor (x : R) :
  0 <= x < 2147483648 -> toInt32 x = Zfloor x.
Proof.
  intros [H0 Hx]; unfold toInt32, Ztrunc.
  replace (Rltb x 0) with false by (symmetry; apply Rltb_false; lra).
  assert (Hlo : (0 <= Zfloor x)%Z) by (apply Zfloor_lub; simpl; lra).
  assert (Hhi : (Zfloor x < 2147483648)%Z).
  { apply lt_IZR; destruct (Zfloor_bound x); lra. }
  change (2 ^ 31)%Z with 2147483648%Z; change (2 ^ 32)%Z with 4294967296%Z.
  rewrite Z.mod_small; lia.
Qed.

(** ** The outline of a capsule *)

(** X3: for a rectangle of non-negative width and height and a
    non-negative radius, every point [roundRectPath] names, control points
    included, lies in the rectangle [[x, x + w] x [y, y + h]], and the last
    curve ends where the path began. *)
Theorem roundRectPath_in_box (x y w h r : R) :
  0 <= w -> 0 <= h -> 0 <= r ->
  (forall c px py,
     In c (roundRectPath x y w h r) -> In (px, py) (cmdPoints c) ->
     x <= px <= x + w /\ y <= py <= y + h) /\
  (exists rr cmds cpx cpy,
     roundRectPath x y w h r =
       beginPath :: moveTo (x + rr) y :: cmds ++
       [quadraticCurveTo cpx cpy (x + rr) y; closePath]).
Proof.
  intros Hw Hh Hr; unfold roundRectPath.
  set (rr := Rmin (Rmin r (w / 2)) (h / 2)).
  assert (Hrr : 0 <= rr /\ rr <= w / 2 /\ rr <= h / 2).
  { unfold rr, Rmin; repeat destruct (Rle_dec _ _); lra. }
  split.
  - intros c px py Hc Hp; simpl in Hc.
    repeat (destruct Hc as [<-|Hc]; [simpl in Hp|]); try contradiction;
      repeat (destruct Hp as [Hp|Hp]; [injection Hp as <- <-; lra|]);
      contradiction.
  - exists rr; eexists [_; _; _; _; _; _; _]; do 2 eexists; reflexivity.
Qed.

(** X4: the capsule of [drawSegment] asks for a corner radius of half its
    larger side, and [roundRectPath] draws it with half its smaller side;
    for a capsule at least as high as wide the straight top and bottom
    edges have length 0, the line to the top right corner starting and
    ending at the middle of the top side. *)
Theorem capsule_radius (x y w h : R) :
  roundRectPath x y w h (Rmax w h * (5 / 10)) =
    roundRectPath x y w h (Rmin w h / 2) /\
  (0 <= w <= h ->
   exists cmds,
     roundRectPath x y w h (Rmax w h * (5 / 10)) =
       beginPath :: moveTo (x + w / 2) y :: lineTo (x + w / 2) y :: cmds).
Proof.
  assert (E : Rmin (Rmin (Rmax w h * (5 / 10)) (w / 2)) (h / 2) = Rmin w h / 2).
  { unfold Rmin, Rmax; repeat destruct (Rle_dec _ _); lra. }
  assert (E' : Rmin (Rmin (Rmin w h / 2) (w / 2)) (h / 2) = Rmin w h / 2).
  { unfold Rmin; repeat destruct (Rle_dec _ _); lra. }
  split.
  - unfold roundRectPath; rewrite E, E'; reflexivity.
  - intros Hwh; unfold roundRectPath; rewrite E.
    replace (Rmin w h) with w by (unfold Rmin; destruct (Rle_dec _ _); lra).
    replace (x + w - w / 2) with (x + w / 2) by lra.
    eexists; reflexivity.
Qed.

(** ** Sizing *)

(** X5: [resize] gives a width and a height that are integers and at least
    1, the floor of the parent's when that is at least 1; the pixel ratio is
    1 without [retina], within [[1, maxDPR]] with [retina] and
    [maxDPR >= 1], and 1 again when [maxDPR < 1]. *)
Theorem resize_spec (opt : Options) (r : Rect) (dpr : R) :
  let W := fst (fst (resize opt r dpr)) in
  let H := snd (fst (resize opt r dpr)) in
  let DPR := snd (resize opt r dpr) in
  (exists zw zh, (1 <= zw)%Z /\ (1 <= zh)%Z /\ W = IZR zw /\ H = IZR zh) /\
  (1 <= width r -> W <= width r < W + 1) /\
  (1 <= height r -> H <= height r < H + 1) /\
  (width r < 1 -> W = 1) /\ (height r < 1 -> H = 1) /\
  (retina opt = false -> DPR = 1) /\
  (retina opt = true -> 1 <= maxDPR opt -> 1 <= DPR <= maxDPR opt) /\
  (retina opt = true -> maxDPR opt < 1 -> DPR = 1).
Proof.
  intros W H DPR; subst W H DPR; unfold resize; cbn [fst snd].
  assert (Hmax : forall v, exists z, (1 <= z)%Z /\ Rmax 1 (IZR (Zfloor v)) = IZR z).
  { intros v; exists (Z.max 1 (Zfloor v)); split; [lia|].
    unfold Rmax; destruct (Rle_dec 1 (IZR (Zfloor v))) as [Hle|Hle].
    - apply le_IZR in Hle; f_equal; lia.
    - assert (Zfloor v < 1)%Z by (apply lt_IZR; lra); f_equal; lia. }
  assert (Hfl : forall v, 1 <= v ->
            Rmax 1 (IZR (Zfloor v)) <= v < Rmax 1 (IZR (Zfloor v)) + 1).
  { intros v Hv; assert (Hz : (1 <= Zfloor v)%Z) by (apply Zfloor_lub; lra).
    apply IZR_le in Hz; rewrite Rmax_right by exact Hz; apply Zfloor_bound. }
  assert (Hsm : forall v, v < 1 -> Rmax 1 (IZR (Zfloor v)) = 1).
  { intros v Hv; apply Rmax_left; destruct (Zfloor_bound v) as [Hb _].
    assert (Hz : (Zfloor v < 1)%Z) by (apply lt_IZR; lra).
    assert (Hz' : (Zfloor v <= 0)%Z) by lia.
    apply IZR_le in Hz'; lra. }
  split.
  { destruct (Hmax (width r)) as (zw & Hzw & Ew).
    destruct (Hmax (height r)) as (zh & Hzh & Eh).
    exists zw, zh; auto. }
  split; [apply Hfl|].
  split; [apply Hfl|].
  split; [apply Hsm|].
  split; [apply Hsm|].
  split; [intros ->; reflexivity|].
  split; intros -> Hm; unfold clamp, Rmax, Rmin;
    repeat destruct (Rle_dec _ _); lra.
Qed.

(** ** The trail *)

(** X6: with a positive spacing the LED of index 0 sits on the multiple of
    [spacing] at or just above the particle ([ly <= y < ly + spacing]), and
    each further LED lies one [spacing] higher on the canvas. *)
Theorem led_grid (sp y : R) (i : nat) :
  0 < sp ->
  let headIndex := Zfloor (y / sp) in
  ledY sp headIndex 0 <= y < ledY sp headIndex 0 + sp /\
  ledY sp headIndex (S i) = ledY sp headIndex i - sp.
Proof.
  intros Hsp hi; subst hi; rewrite !ledY_formula, S_INR.
  destruct (Zfloor_bound (y / sp)) as [Hlo Hhi].
  assert (E : y / sp * sp = y) by (field; lra).
  split; [|ring]; simpl INR; split.
  - apply (Rmult_le_compat_r sp) in Hlo; lra.
  - apply (Rmult_lt_compat_r sp) in Hhi; lra.
Qed.

(** The alpha of a LED other than the head that is above the melt zone. *)
Lemma ledAlpha_body (opt : Options) (H tw ly : R) (i : nat) :
  (0 < i)%nat -> ly <= H - meltZone opt ->
  ledAlpha opt H tw ly i
    = (1 - INR i / IZR (trailLeds opt)) * (92 / 100 * tw).
Proof.
  intros Hi Hly; unfold ledAlpha.
  destruct i as [|i]; [lia|]; cbn [Nat.eqb].
  replace (Rltb (H - meltZone opt) ly) with false
    by (symmetry; apply Rltb_false; lra).
  reflexivity.
Qed.

(** X7: above the melt zone the trail fades towards its tail: of two LEDs
    other than the head, the one farther from the head has the smaller
    alpha, as long as the twinkle factor is positive. *)
Theorem trail_fades (opt : Options) (H tw lyi lyj : R) (i j : nat) :
  (0 < i < j)%nat -> (j < Z.to_nat (trailLeds opt))%nat ->
  0 < tw ->
  lyi <= H - meltZone opt -> lyj <= H - meltZone opt ->
  0 < ledAlpha opt H tw lyj j < ledAlpha opt H tw lyi i.
Proof.
  intros Hij Hj Htw Hi' Hj'.
  rewrite !ledAlpha_body by (lra || lia).
  set (T := IZR (trailLeds opt)).
  assert (HjT : INR j < T).
  { unfold T; rewrite INR_IZR_INZ; apply IZR_lt; lia. }
  assert (Hlt : INR i < INR j) by (apply lt_INR; lia).
  assert (Hi0 : 0 <= INR i) by apply pos_INR.
  assert (HT : 0 < / T) by (apply Rinv_0_lt_compat; lra).
  assert (Hj1 : INR j / T < 1).
  { apply (Rmult_lt_reg_r T); [lra|].
    unfold Rdiv; rewrite Rmult_assoc, Rinv_l; lra. }
  assert (Hd : INR i / T < INR j / T) by (unfold Rdiv; nra).
  split; nra.
Qed.




Lemma world_eta (w : World) (ops : list PaintOp) :
  ops = [] ->
  w = {| seed := seed w + 0; frames := frames w;
         next_frame := next_frame w; canvas := canvas w ++ ops |}.
Proof.
  intros ->; destruct w; simpl; now rewrite Nat.add_0_r, app_nil_r.
Qed.

(** ** One step of one particle *)

Section Steps.

Variable random : nat -> R.

(** The world after a step: the canvas has grown, the random source has
    been read [draws] times, the frame queue is as it was. *)
Lemma drawStream_world (opt : Options) (W H : R) (s : Stream) (dt : R)
  (w : World) :
  exists ops,
    after (drawStream random opt W H s dt) w =
      {| seed :=
           seed w +
           draws (s_state s)
             (s_state (result (drawStream random opt W H s dt) w));
         frames := frames w; next_frame := next_frame w;
         canvas := canvas w ++ ops |}.
Proof.
  destruct (s_state s) eqn:Hst.
  - destruct (fall_canvas random opt W H s dt w Hst) as [Hw _].
    cbv zeta in Hw; rewrite Hw; unfold for_upto, after.
    rewrite (for_from_paints _ _ 0 _ (drawLed_paints opt H _ _ _) w).
    eexists; cbn [snd]; f_equal.
    destruct (fall_to_flash random opt W H s dt w Hst) as (_ & Hf & Hk).
    cbv zeta in Hf, Hk.
    destruct (Rle_dec
                (s_y (result (drawStream random opt W H s dt) w)) (H - 2))
      as [Hle|Hgt].
    + destruct (Hk Hle) as [-> _]; simpl; lia.
    + destruct (Hf ltac:(lra)) as [-> _]; simpl; lia.
  - unfold drawStream; rewrite Hst; run; cases_R; run;
      unfold fill, after; simpl; rewrite Nat.add_0_r, <- !app_assoc;
      simpl; eexists; reflexivity.
  - unfold drawStream; rewrite Hst; run; cases_R; run;
      unfold fill, rand, Math_random, bind, ret, after; simpl;
      eexists; f_equal; lia.
  - unfold drawStream; rewrite Hst; run; cases_R; run.
    + destruct (makeStream_run random opt W H false w)
        as (_ & _ & _ & _ & _ & _ & _ & _ & Hs & Hc & Hf & Hn).
      cbv zeta in Hs, Hc, Hf, Hn; simpl.
      exists []; rewrite app_nil_r.
      destruct (after (makeStream random opt W H false) w); simpl in *.
      subst; f_equal; lia.
    + simpl; exists []; apply world_eta; reflexivity.
Qed.

(** X8: a step never touches the frame queue and never erases what is on
    the canvas, and it reads [Math.random] only when it takes a particle
    from melting to waiting (once) or from waiting to falling (five
    times). *)
Theorem drawStream_footprint (opt : Options) (W H : R) (s : Stream)
  (dt : R) (w : World) :
  let s' := result (drawStream random opt W H s dt) w in
  let w' := after (drawStream random opt W H s dt) w in
  frames w' = frames w /\ next_frame w' = next_frame w /\
  (exists ops, canvas w' = canvas w ++ ops) /\
  seed w' = (seed w + draws (s_state s) (s_state s'))%nat /\
  (s_state s' = s_state s -> seed w' = seed w).
Proof.
  intros s' w'; subst s' w'.
  destruct (drawStream_world opt W H s dt w) as (ops & ->); cbn.
  repeat split; [exists ops; reflexivity|].
  intros ->; destruct (s_state s); simpl; lia.
Qed.

(** X9: a flashing particle paints three circles centred on its [x]: a
    halo of radius 42, the dot of radius [flashDotRadius] and a drop of
    radius 10 under them, at alphas [0.30 a], [0.98 a] and [0.22 a] with
    [a = clamp(1 - (s.t + dt) / flashTime, 0, 1)] in [[0, 1]]; in the step
    that ends the flash they are painted with alpha 0. *)
Theorem flash_step (opt : Options) (W H : R) (s : Stream) (dt : R)
  (w : World) :
  s_state s = st_flash ->
  0 < flashTime opt ->
  let a := clamp (1 - (s_t s + dt) / flashTime opt) 0 1 in
  let s' := result (drawStream random opt W H s dt) w in
  let w' := after (drawStream random opt W H s dt) w in
  canvas w' =
    canvas w ++
    [FillCircle (s_x s) (H - 10) 42 (30 / 100 * a);
     FillCircle (s_x s) (H - 10) (flashDotRadius opt) (98 / 100 * a);
     FillCircle (s_x s) (H - 10 + 14) 10 (22 / 100 * a)] /\
  0 <= a <= 1 /\
  (s_state s' = st_melt -> a = 0) /\
  s_x s' = s_x s /\ s_y s' = s_y s.
Proof.
  intros Hst Hft a s' w'; subst s' w'.
  assert (Ha : 0 <= a <= 1).
  { unfold a, clamp, Rmax, Rmin; repeat destruct (Rle_dec _ _); lra. }
  unfold drawStream; rewrite Hst; fold a; run.
  split; [|split; [exact Ha|split]].
  - cases_R; run; unfold fill, after; simpl; rewrite <- !app_assoc;
      reflexivity.
  - cases_R; run; simpl; [intros _|discriminate].
    assert (1 <= (s_t s + dt) / flashTime opt).
    { apply (Rmult_le_reg_r (flashTime opt)); [lra|].
      unfold Rdiv; rewrite Rmult_assoc, Rinv_l; lra. }
    unfold a, clamp, Rmax, Rmin; repeat destruct (Rle_dec _ _); lra.
  - cases_R; run; simpl; auto.
Qed.

(** X10: a step that does not respawn the particle keeps its two speeds
    and advances its twinkle phase by [1.15 * dt]; outside the fall state
    it keeps the position too. *)
Theorem step_keeps_velocity (opt : Options) (W H : R) (s : Stream)
  (dt : R) (w : World) :
  (s_state s = st_wait -> 0 < s_wait s - dt) ->
  let s' := result (drawStream random opt W H s dt) w in
  s_vy s' = s_vy s /\ s_vx s' = s_vx s /\
  s_phase s' = s_phase s + 115 / 100 * dt /\
  (s_state s <> st_fall -> s_x s' = s_x s /\ s_y s' = s_y s).
Proof.
  intros Hw s'; subst s'; unfold drawStream.
  destruct (s_state s) eqn:Hst; run.
  - cases_R; simpl; repeat split; intros; congruence.
  - cases_R; run; simpl; repeat split.
  - cases_R; run; simpl; repeat split.
  - specialize (Hw eq_refl); eval_R; run; simpl; repeat split.
Qed.

(** X11: a falling particle lands when its [y] after the move is strictly
    above [H - 2]: it is then flashing with [s.t] at 0; at [H - 2] or less
    it keeps falling and [s.t] is not touched. *)
Theorem landing_threshold (opt : Options) (W H : R) (s : Stream) (dt : R)
  (w : World) :
  s_state s = st_fall ->
  let s' := result (drawStream random opt W H s dt) w in
  let y := s_y s + s_vy s * dt in
  s_y s' = y /\
  (H - 2 < y -> s_state s' = st_flash /\ s_t s' = 0) /\
  (y <= H - 2 -> s_state s' = st_fall /\ s_t s' = s_t s).
Proof.
  intros Hst s' y; subst s' y.
  destruct (fall_to_flash random opt W H s dt w Hst) as (Hy & Hf & Hk).
  cbv zeta in Hy, Hf, Hk; rewrite Hy in Hf, Hk; auto.
Qed.


End Steps.

(** ** Creation of particles *)

Section Ensemble.

Variable random : nat -> R.

(** X14: with [Math.random] in [[0, 1)] and a canvas of positive size,
    [makeStream] reads five random values, paints nothing and returns a
    falling particle with [t = 0], [wait = 0], [x] in [[0, W]], the phase in
    [[0, 2 PI]] and each speed between the two ends of its range when the
    range is in order; at creation [y] is in [[-H, H]]; at respawn [y] is
    negative, in [[-0.7 H, -60]] on a canvas at least 600/7 high and in
    [[-60, -0.7 H]] on a lower one. *)
Theorem makeStream_ranges (opt : Options) (W H : R) (first : bool)
  (w : World) :
  (forall n, 0 <= random n < 1) -> 0 < W -> 0 < H ->
  let s := result (makeStream random opt W H first) w in
  let w' := after (makeStream random opt W H first) w in
  0 <= s_x s <= W /\
  (first = true -> - H <= s_y s <= H) /\
  (first = false ->
     s_y s < 0 /\
     (600 / 7 <= H -> - H * (7 / 10) <= s_y s <= -60) /\
     (H <= 600 / 7 -> -60 <= s_y s <= - H * (7 / 10))) /\
  (speedMin opt <= speedMax opt ->
     speedMin opt <= s_vy s <= speedMax opt) /\
  (windMin opt <= windMax opt -> windMin opt <= s_vx s <= windMax opt) /\
  0 <= s_phase s <= PI * 2 /\
  s_state s = st_fall /\ s_t s = 0 /\ s_wait s = 0 /\
  seed w' = (seed w + 5)%nat /\ canvas w' = canvas w.
Proof.
  intros Hu HW HH s w'; subst s w'.
  destruct (makeStream_run random opt W H first w)
    as (Hx & Hy & Hvy & Hvx & Hph & Hst & Ht & Hwt & Hsd & Hcv & _).
  cbv zeta in *; rewrite Hx, Hy, Hvy, Hvx, Hph, Hst, Ht, Hwt, Hsd, Hcv.
  pose proof (Hu (seed w)) as U0; pose proof (Hu (S (seed w))) as U1.
  pose proof (Hu (S (S (seed w)))) as U2.
  pose proof (Hu (S (S (S (seed w))))) as U3.
  pose proof (Hu (S (S (S (S (seed w)))))) as U4.
  pose proof PI_RGT_0 as Hpi.
  split; [nra|].
  split; [intros ->; nra|].
  split; [intros ->; repeat split; intros; nra|].
  split; [intros; nra|].
  split; [intros; nra|].
  split; [nra|].
  repeat split; lia.
Qed.

Lemma replicateM_makeStream_world (opt : Options) (W H : R) (first : bool)
  (n : nat) (w : World) :
  seed (after (replicateM n (makeStream random opt W H first)) w)
    = (seed w + 5 * n)%nat /\
  canvas (after (replicateM n (makeStream random opt W H first)) w)
    = canvas w /\
  next_frame (after (replicateM n (makeStream random opt W H first)) w)
    = next_frame w.
Proof.
  revert w; induction n as [|n IH]; intros w.
  - unfold after; simpl; repeat split; lia.
  - cbn [replicateM]; run; cbn [after_ret].
    destruct (IH (after (makeStream random opt W H first) w))
      as (-> & -> & ->).
    destruct (makeStream_run random opt W H first w)
      as (_ & _ & _ & _ & _ & _ & _ & _ & Hs & Hc & _ & Hn).
    cbv zeta in Hs, Hc, Hn; rewrite Hs, Hc, Hn; repeat split; lia.
Qed.

(** X15: [createInstance], when it succeeds, reads exactly five random
    values for each particle and paints nothing; with [Math.random] in
    [[0, 1)] every particle it returns is falling, with [t = 0], [x] in
    [[0, W)] and [y] in [[-H, H)], on a canvas at least 1 wide and high. *)
Theorem createInstance_particles (r : Rect) (dpr now : R) (u : UserOpts)
  (w : World) (it : Instance) :
  (forall n, 0 <= random n < 1) ->
  result (createInstance random (Some r) true dpr now u) w = inr it ->
  let w' := after (createInstance random (Some r) true dpr now u) w in
  1 <= i_W it /\ 1 <= i_H it /\
  seed w' = (seed w + 5 * List.length (i_streams it))%nat /\
  canvas w' = canvas w /\
  Forall
    (fun s =>
       s_state s = st_fall /\ s_t s = 0 /\
       0 <= s_x s < i_W it /\ - i_H it <= s_y s < i_H it)
    (i_streams it).
Proof.
  intros Hu Hit w'; subst w'.
  destruct (createInstance_size random r dpr now u w it Hit) as [HW HH].
  pose proof (createInstance_inr random r dpr now u w it Hit) as Hlt.
  destruct (createInstance_ok random r dpr now u w Hlt)
    as (it0 & Hit0 & Hopt & _ & _ & Hlen & HF & _).
  rewrite Hit in Hit0; injection Hit0 as <-.
  split; [exact HW|split; [exact HH|]].
  assert (Hw : seed (after (createInstance random (Some r) true dpr now u) w)
               = (seed w + 5 * Z.to_nat (streams (assign DEFAULTS u)))%nat /\
               canvas (after (createInstance random (Some r) true dpr now u) w)
               = canvas w).
  { apply Z.leb_gt in Hlt.
    unfold createInstance, resize; simpl negb; cbv iota; rewrite Hlt; run.
    change (seed (after requestAnimationFrame ?x)) with (seed x).
    change (canvas (after requestAnimationFrame ?x)) with (canvas x).
    split; apply replicateM_makeStream_world. }
  destruct Hw as [Hs Hc]; rewrite Hlen, Hopt.
  split; [exact Hs|split; [exact Hc|]].
  eapply Forall_impl; [|exact HF].
  intros s (w1 & ->).
  destruct (makeStream_run random (i_opt it) (i_W it) (i_H it) true w1)
    as (Hx & Hy & _ & _ & _ & Hst & Ht & _).
  cbv zeta in *; rewrite Hx, Hy, Hst, Ht.
  pose proof (Hu (seed w1)); pose proof (Hu (S (seed w1))).
  repeat split; try reflexivity; nra.
Qed.

End Ensemble.

(** ** Frames and the life cycle of an instance *)

Lemma draws_le (a b : Phase) : (draws a b <= 5)%nat.
Proof. destruct a, b; simpl; lia. Qed.

Lemma remove_twice (id : nat) (l : list nat) :
  remove Nat.eq_dec id (remove Nat.eq_dec id l) = remove Nat.eq_dec id l.
Proof. apply notin_remove, remove_In. Qed.

Section Frames.

Variable random : nat -> R.

(** The world after all the particles of a frame have taken their step. *)
Lemma mapM_drawStream_world (opt : Options) (W H dt : R) (xs : list Stream)
  (w : World) :
  exists ops k,
    after (mapM (fun s => drawStream random opt W H s dt) xs) w =
      {| seed := seed w + k; frames := frames w;
         next_frame := next_frame w; canvas := canvas w ++ ops |} /\
    (k <= 5 * List.length xs)%nat /\
    List.length (result (mapM (fun s => drawStream random opt W H s dt) xs) w)
      = List.length xs.
Proof.
  revert w; induction xs as [|s xs IH]; intros w.
  - exists [], 0%nat; simpl; repeat split; [|lia].
    unfold after; simpl; apply world_eta; reflexivity.
  - cbn [mapM]; run; cbn [after_ret result_ret].
    destruct (drawStream_world random opt W H s dt w) as (ops1 & E1).
    destruct (IH (after (drawStream random opt W H s dt) w))
      as (ops2 & k & E2 & Hk & Hl).
    exists (ops1 ++ ops2),
      (draws (s_state s)
         (s_state (result (drawStream random opt W H s dt) w)) + k)%nat.
    split; [|split].
    + rewrite E2, E1; cbn [seed frames next_frame canvas].
      rewrite <- Nat.add_assoc, <- app_assoc; reflexivity.
    + pose proof (draws_le (s_state s)
                    (s_state (result (drawStream random opt W H s dt) w))).
      simpl List.length; lia.
    + unfold result at 1; simpl; f_equal; exact Hl.
Qed.

(** X16: a frame of a running instance first clears the canvas, over the
    width and height it then draws with, and only adds shapes after that;
    it keeps the options and the number of particles, reads at most five
    random values for each particle, and requests exactly one new frame,
    whose handle it stores in [raf]. *)
Theorem loop_frame (r : Rect) (dpr now : R) (it : Instance) (w : World) :
  i_running it = true ->
  let it' := result (loop random r dpr now it) w in
  let w' := after (loop random r dpr now it) w in
  i_running it' = true /\ i_last it' = now /\ i_opt it' = i_opt it /\
  List.length (i_streams it') = List.length (i_streams it) /\
  (exists ops,
     canvas w' = canvas w ++ ClearRect 0 0 (i_W it') (i_H it') :: ops) /\
  i_raf it' = next_frame w /\
  frames w' = frames w ++ [i_raf it'] /\
  next_frame w' = S (next_frame w) /\
  (seed w <= seed w' <= seed w + 5 * List.length (i_streams it))%nat.
Proof.
  intros Hrun it' w'; subst it' w'; unfold loop; rewrite Hrun.
  simpl negb; cbv iota.
  match goal with
  | |- context [match ?e with pair _ _ => _ end] => destruct e as [[W H] DPR]
  end.
  run.
  destruct (mapM_drawStream_world (i_opt it) W H
              (frame_dt now (i_last it)) (i_streams it)
              (after (fill (ClearRect 0 0 W H)) w))
    as (ops & k & E & Hk & Hl).
  cbn [i_running i_last i_opt i_streams i_raf i_W i_H].
  rewrite Hl, E; unfold requestAnimationFrame, fill, result, after; simpl.
  repeat split; try lia.
  exists ops; rewrite <- app_assoc; reflexivity.
Qed.

(** X17: a frame of a running instance always draws with the current size
    of the parent: for a parent narrower and lower than 2^31, the width and
    height after the frame are [max(1, floor(width))] and
    [max(1, floor(height))], whether or not the frame had to resize. *)
Theorem loop_uses_current_size (r : Rect) (dpr now : R) (it : Instance)
  (w : World) :
  i_running it = true ->
  1 <= i_W it -> 1 <= i_H it ->
  0 <= width r < 2147483648 -> 0 <= height r < 2147483648 ->
  let it' := result (loop random r dpr now it) w in
  i_W it' = Rmax 1 (IZR (Zfloor (width r))) /\
  i_H it' = Rmax 1 (IZR (Zfloor (height r))).
Proof.
  intros Hrun HW HH Hw Hh it'; subst it'; unfold loop; rewrite Hrun.
  simpl negb; cbv iota.
  rewrite (toInt32_floor _ Hw), (toInt32_floor _ Hh).
  unfold Reqb.
  destruct (Req_dec_T (IZR (Zfloor (width r))) (i_W it)) as [EW|NW];
    destruct (Req_dec_T (IZR (Zfloor (height r))) (i_H it)) as [EH|NH];
    simpl negb; simpl orb; cbv iota; unfold resize; run; simpl;
    try (split; reflexivity).
  rewrite !Rmax_right by lra; auto.
Qed.

(** X18: [pause] on a paused instance does nothing; on a running one it
    stops it and cancels its pending frame, leaving the other requests, the
    particles, [last], the canvas and the random source as they were; once
    paused, a further [pause] and any frame still delivered do nothing. *)
Theorem pause_spec (it : Instance) (w : World) :
  (i_running it = false -> pause it w = (it, w)) /\
  (i_running it = true ->
     let it' := result (pause it) w in
     let w' := after (pause it) w in
     i_running it' = false /\ i_streams it' = i_streams it /\
     i_last it' = i_last it /\
     ~ In (i_raf it) (frames w') /\
     (forall id, id <> i_raf it -> (In id (frames w') <-> In id (frames w))) /\
     canvas w' = canvas w /\ seed w' = seed w /\
     pause it' w' = (it', w') /\
     (forall r dpr now, loop random r dpr now it' w' = (it', w'))).
Proof.
  split; intros Hrun.
  - unfold pause; rewrite Hrun; reflexivity.
  - intros it' w'; subst it' w'; unfold pause; rewrite Hrun.
    simpl negb; cbv iota; run; unfold cancelAnimationFrame, result, after.
    simpl.
    repeat split; auto.
    + apply remove_In.
    + intros Hin; apply in_remove in Hin; tauto.
    + intros Hin; apply in_in_remove; auto.
Qed.

(** X19: [pause] followed by [resume] on a running instance gives a running
    instance with the same options, size and particles, untouched; only
    [last] is now the instant of the [resume], and the cancelled frame
    request is replaced by a new one. *)
Theorem pause_resume (now : R) (it : Instance) (w : World) :
  i_running it = true ->
  let it1 := result (pause it) w in
  let w1 := after (pause it) w in
  let it2 := result (resume now it1) w1 in
  let w2 := after (resume now it1) w1 in
  i_running it2 = true /\ i_opt it2 = i_opt it /\
  i_W it2 = i_W it /\ i_H it2 = i_H it /\
  i_streams it2 = i_streams it /\ i_last it2 = now /\
  i_raf it2 = next_frame w /\
  frames w2 = remove Nat.eq_dec (i_raf it) (frames w) ++ [i_raf it2] /\
  canvas w2 = canvas w /\ seed w2 = seed w.
Proof.
  intros Hrun it1 w1 it2 w2; subst it1 w1 it2 w2.
  unfold pause; rewrite Hrun; simpl negb; cbv iota; run.
  unfold resume; cbn [i_running result_ret]; run.
  unfold cancelAnimationFrame, requestAnimationFrame, result, after; simpl.
  repeat split.
Qed.

(** X20: [destroy] stops the instance, cancels its pending frame, empties
    the particle list and detaches the canvas and the resize listener; a
    second [destroy] changes nothing, and neither do [pause] and the frames
    delivered afterwards. *)
Theorem destroy_spec (it : Instance) (w : World) :
  let it' := result (destroy it) w in
  let w' := after (destroy it) w in
  i_running it' = false /\ i_streams it' = [] /\
  i_attached it' = false /\ i_listening it' = false /\
  ~ In (i_raf it) (frames w') /\ canvas w' = canvas w /\
  destroy it' w' = (it', w') /\
  pause it' w' = (it', w') /\
  (forall r dpr now, loop random r dpr now it' w' = (it', w')).
Proof.
  intros it' w'; subst it' w'.
  unfold destroy, cancelAnimationFrame, bind, ret, result, after; simpl.
  repeat split; auto.
  - apply remove_In.
  - now rewrite remove_twice.
Qed.

(** X21: [resume] does not know that an instance was destroyed: on a
    destroyed instance it starts the frame loop again, and each frame then
    clears the detached canvas, draws no particle and requests the next
    frame. *)
Theorem resume_after_destroy (r : Rect) (dpr now now' : R) (it : Instance)
  (w : World) :
  let it1 := result (destroy it) w in
  let w1 := after (destroy it) w in
  let it2 := result (resume now it1) w1 in
  let w2 := after (resume now it1) w1 in
  let it3 := result (loop random r dpr now' it2) w2 in
  let w3 := after (loop random r dpr now' it2) w2 in
  i_running it2 = true /\ i_attached it2 = false /\ i_streams it2 = [] /\
  frames w2 = frames w1 ++ [i_raf it2] /\
  i_running it3 = true /\ i_streams it3 = [] /\
  canvas w3 = canvas w ++ [ClearRect 0 0 (i_W it3) (i_H it3)] /\
  frames w3 = frames w2 ++ [i_raf it3] /\
  seed w3 = seed w.
Proof.
  intros it1 w1 it2 w2 it3 w3; subst it1 w1 it2 w2 it3 w3.
  unfold destroy; run.
  unfold resume; cbn [i_running]; run.
  unfold loop; cbn [i_running negb].
  match goal with
  | |- context [match ?e with pair _ _ => _ end] => destruct e as [[W H] DPR]
  end.
  unfold cancelAnimationFrame, requestAnimationFrame, fill, bind, ret,
    result, after; simpl.
  repeat split.
Qed.

(** A falling step keeps the vertical speed. *)
Lemma fall_keeps_vy (opt : Options) (W H : R) (s : Stream) (dt : R)
  (w : World) :
  s_state s = st_fall ->
  s_vy (result (drawStream random opt W H s dt) w) = s_vy s.
Proof.
  intros Hst; unfold drawStream; rewrite Hst; run.
  destruct (Rltb (H - 2) _); reflexivity.
Qed.

Lemma steps_S (opt : Options) (W H dt : R) (n : nat) (s : Stream)
  (w : World) :
  result (steps random opt W H dt (S n) s) w =
    result (steps random opt W H dt n
              (result (drawStream random opt W H s dt) w))
      (after (drawStream random opt W H s dt) w).
Proof. cbn [steps]; now rewrite result_bind. Qed.

(** A falling particle less than [k] moves away from the landing line has
    landed after at most [k + 1] steps. *)
Lemma lands_within (opt : Options) (W H dt : R) (k : nat) :
  forall (s : Stream) (w : World),
    s_state s = st_fall ->
    0 < s_vy s * dt ->
    H - 2 - s_y s < INR k * (s_vy s * dt) ->
    exists n,
      (n <= S k)%nat /\
      s_state (result (steps random opt W H dt n s) w) = st_flash /\
      forall m, (m < n)%nat ->
        s_state (result (steps random opt W H dt m s) w) = st_fall.
Proof.
  induction k as [|k IH]; intros s w Hst Hc Hd;
    destruct (fall_to_flash random opt W H s dt w Hst) as (Hy & Hf & Hk);
    cbv zeta in Hy, Hf, Hk.
  - simpl INR in Hd; exists 1%nat; split; [lia|split].
    + rewrite steps_S; simpl; apply Hf; lra.
    + intros m Hm; replace m with 0%nat by lia; exact Hst.
  - destruct (Rlt_le_dec (H - 2)
                (s_y (result (drawStream random opt W H s dt) w)))
      as [Hlt|Hle].
    + exists 1%nat; split; [lia|split].
      * rewrite steps_S; simpl; apply Hf; exact Hlt.
      * intros m Hm; replace m with 0%nat by lia; exact Hst.
    + destruct (Hk Hle) as [Hst' _].
      pose proof (fall_keeps_vy opt W H s dt w Hst) as Hvy.
      destruct (IH (result (drawStream random opt W H s dt) w)
                  (after (drawStream random opt W H s dt) w) Hst')
        as (n & Hn & Hfl & Hbefore).
      * rewrite Hvy; exact Hc.
      * rewrite Hvy, Hy; rewrite S_INR in Hd; lra.
      * exists (S n); split; [lia|split].
        -- rewrite steps_S; exact Hfl.
        -- intros [|m] Hm; [exact Hst|].
           rewrite steps_S; apply Hbefore; lia.
Qed.

(** X22: a falling particle on a canvas of height at most 2^31, not
    higher than 2^31 above its top, that moves down by at least 0.001 a
    step lands: after some number [n >= 1] of steps, at most
    8589934592000 (twice the distance 2^32 in moves of 0.001), it is
    flashing, and it is falling after every smaller number of steps.  (A
    move of 0.001 is far above the spacing of the doubles of that size, so
    that no step is lost to rounding.) *)
Theorem falling_lands (opt : Options) (W H dt : R) (s : Stream) (w : World) :
  s_state s = st_fall ->
  -2147483648 <= s_y s -> H <= 2147483648 ->
  1 / 1000 <= s_vy s * dt ->
  exists n,
    (1 <= n)%nat /\ (Z.of_nat n <= 8589934592000)%Z /\
    s_state (result (steps random opt W H dt n s) w) = st_flash /\
    forall m, (m < n)%nat ->
      s_state (result (steps random opt W H dt m s) w) = st_fall.
Proof.
  intros Hst Hy HH Hc1.
  assert (Hc : 0 < s_vy s * dt) by lra.
  set (c := s_vy s * dt) in *.
  set (d := (H - 2 - s_y s) / c).
  set (k := Z.to_nat (Z.max 0 (up d))).
  destruct (archimed d) as [Hup Hup1].
  assert (Hk : d < INR k).
  { unfold k; rewrite INR_IZR_INZ, Z2Nat.id by lia.
    assert (IZR (up d) <= IZR (Z.max 0 (up d))) by (apply IZR_le; lia).
    lra. }
  assert (Hdc : d * c = H - 2 - s_y s).
  { unfold d, Rdiv; rewrite Rmult_assoc, Rinv_l; lra. }
  assert (Hd : H - 2 - s_y s < INR k * c) by nra.
  assert (Hdle : d <= 4294967294000).
  { apply (Rmult_le_reg_r c); [exact Hc|]; rewrite Hdc; nra. }
  assert (Hkle : (Z.of_nat k <= 4294967294001)%Z).
  { unfold k; rewrite Z2Nat.id by lia.
    apply Z.max_lub; [lia|]; apply le_IZR; lra. }
  destruct (lands_within opt W H dt k s w Hst Hc Hd) as (n & Hn & Hfl & Hb).
  exists n; split; [|split; [lia|split; assumption]].
  destruct n as [|n]; [|lia].
  simpl in Hfl; unfold result, ret in Hfl; simpl in Hfl; congruence.
Qed.

End Frames.

(** ** The further properties at sample inputs *)

Lemma always_half_range : forall n, 0 <= always_half n < 1.
Proof. intros n; unfold always_half; lra. Defined.

(** X1 at the pixel ratio: [clamp(3, 1, 2) = 2], and [clamp(3, 1, 0.5) = 1]
    for a [maxDPR] below 1. *)
Lemma clamp_spec_at_dpr :
  clamp 3 1 2 = 2 /\ clamp 3 1 (1 / 2) = 1.
Proof.
  split.
  - apply (proj1 (clamp_spec 3 1 2)); lra.
  - apply (proj2 (clamp_spec 3 1 (1 / 2))); lra.
Defined.

(** X2 at the default respawn gap. *)
Lemma rand_range_at_gap :
  0 <= always_half (seed world0) < 1 /\
  8 / 100 <= result (rand always_half (8 / 100) (60 / 100)) world0
    <= 60 / 100.
Proof.
  split; [apply always_half_range|].
  apply (rand_range always_half (8 / 100) (60 / 100) world0
           (always_half_range _)); lra.
Defined.

(** X3 at the head capsule of the default options: the end of the curve
    round its top right corner. *)
Lemma roundRectPath_in_box_at_head :
  let rr := Rmin (Rmin 10 (36 / 10 / 2)) (20 / 2) in
  0 <= 36 / 10 /\ 0 <= 20 /\ 0 <= 10 /\
  0 <= 0 + 36 / 10 <= 0 + 36 / 10 /\ 0 <= 0 + rr <= 0 + 20.
Proof.
  intros rr.
  assert (Hw : 0 <= 36 / 10) by lra.
  assert (Hh : 0 <= 20) by lra.
  assert (Hr : 0 <= 10) by lra.
  split; [exact Hw|split; [exact Hh|split; [exact Hr|]]].
  apply (proj1 (roundRectPath_in_box 0 0 (36 / 10) 20 10 Hw Hh Hr)
           (quadraticCurveTo (0 + 36 / 10) 0 (0 + 36 / 10) (0 + rr))).
  - simpl; auto.
  - simpl; auto.
Defined.

(** X4 at the head capsule of the default options. *)
Lemma capsule_radius_at_head :
  0 <= 36 / 10 <= 20 /\
  exists cmds,
    roundRectPath 0 0 (36 / 10) 20 (Rmax (36 / 10) 20 * (5 / 10)) =
      beginPath :: moveTo (0 + 36 / 10 / 2) 0 ::
      lineTo (0 + 36 / 10 / 2) 0 :: cmds.
Proof.
  assert (H : 0 <= 36 / 10 <= 20) by lra.
  split; [exact H|].
  apply (proj2 (capsule_radius 0 0 (36 / 10) 20) H).
Defined.

(** X5 at a parent 0.5 wide and 200.7 high, retina on, ratio 3. *)
Lemma resize_spec_at_small :
  let r := {| width := 1 / 2; height := 2007 / 10 |} in
  fst (fst (resize DEFAULTS r 3)) = 1 /\
  snd (fst (resize DEFAULTS r 3)) <= 2007 / 10 /\
  1 <= snd (resize DEFAULTS r 3) <= 2.
Proof.
  intros r.
  destruct (resize_spec DEFAULTS r 3) as (_ & _ & Hh & Hw & _ & _ & Hd & _).
  split; [apply Hw; simpl; lra|split].
  - apply Hh; simpl; lra.
  - apply Hd; [reflexivity | simpl; lra].
Defined.

(** X6 at the default spacing and [y = 210]. *)
Lemma led_grid_at_low :
  0 < 16 /\
  ledY 16 (Zfloor (210 / 16)) 0 <= 210 < ledY 16 (Zfloor (210 / 16)) 0 + 16.
Proof.
  assert (H : 0 < 16) by lra.
  split; [exact H|].
  apply (led_grid 16 210 0 H).
Defined.

(** X7 at the LEDs 1 and 2 of the default trail, high on the canvas. *)
Lemma trail_fades_at_defaults :
  0 < ledAlpha DEFAULTS 200 1 64 2 < ledAlpha DEFAULTS 200 1 80 1.
Proof.
  apply (trail_fades DEFAULTS 200 1 80 64 1 2); simpl; try lia; lra.
Defined.

(** X8 at [flashing_edge]: flash to melt reads no random value. *)
Lemma drawStream_footprint_at_edge :
  seed (after (drawStream always_half DEFAULTS 100 200 flashing_edge
                 (1 / 100)) world0) = seed world0.
Proof.
  apply (drawStream_footprint always_half DEFAULTS 100 200 flashing_edge
           (1 / 100) world0).
  unfold drawStream; cbn [s_state s_t flashing_edge flashTime DEFAULTS].
  run; eval_R; run; reflexivity.
Defined.

(** X9 at [flashing_edge]: the last flash frame is transparent. *)
Lemma flash_step_at_edge :
  s_state flashing_edge = st_flash /\ 0 < flashTime DEFAULTS /\
  canvas (after (drawStream always_half DEFAULTS 100 200 flashing_edge
                   (4 / 100)) world0) =
    canvas world0 ++
    [FillCircle 50 (200 - 10) 42 (30 / 100 * 0);
     FillCircle 50 (200 - 10) (65 / 10) (98 / 100 * 0);
     FillCircle 50 (200 - 10 + 14) 10 (22 / 100 * 0)].
Proof.
  assert (Hf : 0 < flashTime DEFAULTS) by (simpl; lra).
  split; [reflexivity|split; [exact Hf|]].
  destruct (flash_step always_half DEFAULTS 100 200 flashing_edge (4 / 100)
              world0 eq_refl Hf) as (Hcv & _ & Hz & _).
  cbv zeta in Hcv, Hz; rewrite Hcv, Hz; [reflexivity|].
  unfold drawStream; cbn [s_state s_t flashing_edge flashTime DEFAULTS].
  run; eval_R; run; reflexivity.
Defined.

(** X10 at [melting_start]. *)
Lemma step_keeps_velocity_at_melt :
  s_vy (result (drawStream always_half DEFAULTS 100 200 melting_start
                  (4 / 100)) world0) = 500.
Proof.
  apply (step_keeps_velocity always_half DEFAULTS 100 200 melting_start
           (4 / 100) world0).
  discriminate.
Defined.

(** X11 at [falling_low]: at [y = 210] it has landed. *)
Lemma landing_threshold_at_low :
  s_state falling_low = st_fall /\
  s_state (result (drawStream always_half DEFAULTS 100 200 falling_low
                     (4 / 100)) world0) = st_flash.
Proof.
  split; [reflexivity|].
  apply (landing_threshold always_half DEFAULTS 100 200 falling_low
           (4 / 100) world0 eq_refl); simpl; lra.
Defined.


(** X14 at a respawn on the sample canvas. *)
Lemma makeStream_ranges_at_respawn :
  0 < 100 /\ 0 < 200 /\
  - 200 * (7 / 10)
    <= s_y (result (makeStream always_half DEFAULTS 100 200 false) world0)
    <= -60.
Proof.
  assert (HW : 0 < 100) by lra.
  assert (HH : 0 < 200) by lra.
  split; [exact HW|split; [exact HH|]].
  destruct (makeStream_ranges always_half DEFAULTS 100 200 false world0
              always_half_range HW HH) as (_ & _ & Hy & _).
  apply (Hy eq_refl); lra.
Defined.

(** X15 at the default options. *)
Lemma createInstance_particles_at_defaults :
  exists it,
    result (createInstance always_half
              (Some {| width := 100; height := 200 |}) true 1 0 no_opts)
      world0 = inr it /\
    Forall (fun s => s_state s = st_fall /\ s_t s = 0 /\
                     0 <= s_x s < i_W it /\ - i_H it <= s_y s < i_H it)
      (i_streams it).
Proof.
  destruct (createInstance_ok always_half {| width := 100; height := 200 |}
              1 0 no_opts world0 ltac:(simpl; lia)) as (it & Hit & _).
  exists it; split; [exact Hit|].
  apply (createInstance_particles always_half _ 1 0 no_opts world0 it
           always_half_range Hit).
Defined.

(** X16 and X17 at [running_instance], whose parent has grown to 300 by
    150. *)
Lemma loop_frame_at_running :
  i_running running_instance = true /\
  frames (after (loop always_half {| width := 300; height := 150 |} 1 16
                   running_instance) world0) = [0%nat].
Proof.
  split; [reflexivity|].
  destruct (loop_frame always_half {| width := 300; height := 150 |} 1 16
              running_instance world0 eq_refl)
    as (_ & _ & _ & _ & _ & Hraf & Hfr & _).
  cbv zeta in Hraf, Hfr; rewrite Hfr, Hraf; reflexivity.
Defined.

Lemma loop_uses_current_size_at_running :
  let r := {| width := 3005 / 10; height := 150 |} in
  i_W (result (loop always_half r 1 16 running_instance) world0)
    = Rmax 1 (IZR (Zfloor (3005 / 10))).
Proof.
  intros r.
  apply (loop_uses_current_size always_half r 1 16 running_instance world0
           eq_refl); simpl; lra.
Defined.

(** X18 and X19 at the sample instances. *)
Lemma pause_spec_at_samples :
  pause paused_instance world0 = (paused_instance, world0) /\
  i_running (result (pause running_instance) world0) = false.
Proof.
  split.
  - apply (proj1 (pause_spec always_half paused_instance world0)).
    reflexivity.
  - apply (proj2 (pause_spec always_half running_instance world0) eq_refl).
Defined.

Lemma pause_resume_at_running :
  i_running running_instance = true /\
  i_streams (result (resume 7 (result (pause running_instance) world0))
               (after (pause running_instance) world0))
    = i_streams running_instance.
Proof.
  split; [reflexivity|].
  apply (pause_resume 7 running_instance world0 eq_refl).
Defined.

(** X22 at [falling_low] with frames of 16 ms, each a move of 8. *)
Lemma falling_lands_at_low :
  s_state falling_low = st_fall /\
  -2147483648 <= s_y falling_low /\ 200 <= 2147483648 /\
  1 / 1000 <= s_vy falling_low * (16 / 1000) /\
  exists n,
    s_state (result (steps always_half DEFAULTS 100 200 (16 / 1000) n
                       falling_low) world0) = st_flash.
Proof.
  assert (Hy : -2147483648 <= s_y falling_low) by (simpl; lra).
  assert (HH : 200 <= 2147483648) by lra.
  assert (Hc : 1 / 1000 <= s_vy falling_low * (16 / 1000)) by (simpl; lra).
  split; [reflexivity|split; [exact Hy|split; [exact HH|split; [exact Hc|]]]].
  destruct (falling_lands always_half DEFAULTS 100 200 (16 / 1000)
              falling_low world0 eq_refl Hy HH Hc) as (n & _ & _ & Hn & _).
  exists n; exact Hn.
Defined.
